(** * The socket interposition layer of TAS (lib/sockets/interpose.c)

    The shim overrides the libc socket entry points.  Every entry point
    passes the initialisation gate [ensure_init], tries the TAS
    implementation ([tas_*]) and, for most of them, falls back to the
    libc implementation resolved with [dlsym(RTLD_NEXT, ...)] when TAS
    answers [-1] with [errno == EBADF].

    The file has two layers:
    - [Interpose]: the code of one thread, as functions in a small
      state-and-outcome monad over a [World] that holds [errno], the three
      static variables of [ensure_init], the [libc_*] pointers and an event
      log;
    - [Gate]: the interleaving of several threads running [ensure_init],
      one shared-memory access per step. *)

From Stdlib Require Import ZArith List String Ascii Bool Lia Arith.
Import ListNotations.
Open Scope Z_scope.

(** ** Constants of the system headers (Linux values) *)

Definition AF_INET : Z := 2.
Definition SOCK_STREAM : Z := 1.
Definition EBADF : Z := 9.

(** [uint32_t] arithmetic of [init_cnt]. *)
Definition UINT32_MOD : Z := 2 ^ 32.
Definition wrap_u32 (z : Z) : Z := z mod UINT32_MOD.

(** Reading a variadic slot as [int]: the low 32 bits, two's complement. *)
Definition to_int (z : Z) : Z := (z + 2 ^ 31) mod 2 ^ 32 - 2 ^ 31.

(** ** The libc function pointers *)

Inductive symbol : Type :=
| Ssocket | Sclose | Sshutdown | Sbind | Sconnect | Slisten | Saccept4
| Saccept | Sfcntl | Sgetsockopt | Ssetsockopt | Sgetsockname
| Sgetpeername | Sread | Srecv | Srecvfrom | Srecvmsg | Swrite | Ssend
| Ssendto | Ssendmsg | Sselect.

Definition symbol_eqb (a b : symbol) : bool :=
  match a, b with
  | Ssocket, Ssocket | Sclose, Sclose | Sshutdown, Sshutdown
  | Sbind, Sbind | Sconnect, Sconnect | Slisten, Slisten
  | Saccept4, Saccept4 | Saccept, Saccept | Sfcntl, Sfcntl
  | Sgetsockopt, Sgetsockopt | Ssetsockopt, Ssetsockopt
  | Sgetsockname, Sgetsockname | Sgetpeername, Sgetpeername
  | Sread, Sread | Srecv, Srecv | Srecvfrom, Srecvfrom
  | Srecvmsg, Srecvmsg | Swrite, Swrite | Ssend, Ssend
  | Ssendto, Ssendto | Ssendmsg, Ssendmsg | Sselect, Sselect => true
  | _, _ => false
  end.

(** The string handed to [bind_symbol] for each pointer. *)
Definition symbol_name (s : symbol) : string :=
  match s with
  | Ssocket => "socket" | Sclose => "close" | Sshutdown => "shutdown"
  | Sbind => "bind" | Sconnect => "connect" | Slisten => "listen"
  | Saccept4 => "accept4" | Saccept => "accept" | Sfcntl => "fcntl"
  | Sgetsockopt => "getsockopt" | Ssetsockopt => "setsockopt"
  | Sgetsockname => "getsockname" | Sgetpeername => "getpeername"
  | Sread => "read" | Srecv => "recv" | Srecvfrom => "recvfrom"
  | Srecvmsg => "recvmsg" | Swrite => "write" | Ssend => "send"
  | Ssendto => "sendto" | Ssendmsg => "sendmsg" | Sselect => "select"
  end%string.

(** The pointers in the order in which [init] assigns them. *)
Definition all_symbols : list symbol :=
  [Ssocket; Sclose; Sshutdown; Sbind; Sconnect; Slisten; Saccept4; Saccept;
   Sfcntl; Sgetsockopt; Ssetsockopt; Sgetsockname; Sgetpeername; Sread;
   Srecv; Srecvfrom; Srecvmsg; Swrite; Ssend; Ssendto; Ssendmsg; Sselect].

(** The pointer table [t] after [libc_<s> = p]. *)
Definition upd (t : symbol -> Z) (s : symbol) (p : Z) : symbol -> Z :=
  fun s' => if symbol_eqb s s' then p else t s'.

(** ** Calls to a backend

    One constructor per intercepted entry point, with its arguments;
    pointers and sizes are integers. *)

Inductive call : Type :=
| CSocket (domain type protocol : Z)
| CClose (sockfd : Z)
| CShutdown (sockfd how : Z)
| CBind (sockfd addr addrlen : Z)
| CConnect (sockfd addr addrlen : Z)
| CListen (sockfd backlog : Z)
| CAccept4 (sockfd addr addrlen flags : Z)
| CAccept (sockfd addr addrlen : Z)
| CFcntl (sockfd cmd arg : Z)
| CGetsockopt (sockfd level optname optval optlen : Z)
| CSetsockopt (sockfd level optname optval optlen : Z)
| CGetsockname (sockfd addr addrlen : Z)
| CGetpeername (sockfd addr addrlen : Z)
| CRead (sockfd buf count : Z)
| CRecv (sockfd buf len flags : Z)
| CRecvfrom (sockfd buf len flags src_addr addrlen : Z)
| CRecvmsg (sockfd msg flags : Z)
| CWrite (sockfd buf count : Z)
| CSend (sockfd buf len flags : Z)
| CSendto (sockfd buf len flags dest_addr addrlen : Z)
| CSendmsg (sockfd msg flags : Z)
| CSelect (nfds readfds writefds exceptfds timeout : Z)
| CEpollCreate (size : Z)
| CEpollCreate1 (flags : Z)
| CEpollCtl (epfd op fd event : Z)
| CEpollWait (epfd events maxevents timeout : Z)
| CEpollPwait (epfd events maxevents timeout sigmask : Z).

(** ** Events a thread leaves in its log *)

Inductive event : Type :=
| EvEnsureInit                      (* ensure_init() entered *)
| EvDlsym (sym : string)            (* dlsym(RTLD_NEXT, sym) *)
| EvAssign (s : symbol) (p : Z)     (* libc_<s> = p *)
| EvStderr (msg : string)           (* fprintf(stderr, ...) *)
| EvAbort                           (* abort() *)
| EvTasInit                         (* tas_init() *)
| EvBarrier                         (* MEM_BARRIER() *)
| EvPublish                         (* init_done = 1 *)
| EvTas (c : call)                  (* a tas_* function called *)
| EvLibc (p : Z) (c : call).        (* a libc function called through p *)

Definition is_backend (e : event) : bool :=
  match e with EvTas _ | EvLibc _ _ => true | _ => false end.

Definition is_tas (e : event) : bool :=
  match e with EvTas _ => true | _ => false end.

Definition is_libc (e : event) : bool :=
  match e with EvLibc _ _ => true | _ => false end.

Definition is_ensure_init (e : event) : bool :=
  match e with EvEnsureInit => true | _ => false end.

Definition is_stderr (e : event) : bool :=
  match e with EvStderr _ => true | _ => false end.

Definition is_dlsym (e : event) : bool :=
  match e with EvDlsym _ => true | _ => false end.

Definition is_assign (e : event) : bool :=
  match e with EvAssign _ _ => true | _ => false end.

Definition is_tas_init (e : event) : bool :=
  match e with EvTasInit => true | _ => false end.

Definition count (f : event -> bool) (l : list event) : nat :=
  List.length (filter f l).

(** * One thread: the code of interpose.c *)

(** The two backends and the dynamic linker are outside this file.  They
    are arbitrary functions of an abstract backend state [B]; a backend
    call reads and writes [errno]. *)
Class Backends : Type := {
  B : Type;
  (* dlsym(RTLD_NEXT, sym); 0 is NULL *)
  dlsym_next : string -> B -> Z;
  (* tas_init(): result, errno and backend state afterwards *)
  tas_init_impl : B -> Z -> Z * Z * B;
  (* a tas_* function *)
  tas_impl : call -> B -> Z -> Z * Z * B;
  (* the function behind a non-null pointer obtained from dlsym *)
  libc_impl : Z -> call -> B -> Z -> Z * Z * B;
  (* what va_arg reads when the caller passed no variadic argument *)
  va_stale : Z
}.

Module Interpose.

Section Code.

Context {E : Backends}.

(** The state one thread sees. *)
Record World : Type := mkWorld {
  errno : Z;                 (* thread-local errno *)
  init_cnt : Z;              (* static volatile uint32_t init_cnt *)
  init_done : Z;             (* static volatile uint8_t init_done *)
  in_init : Z;               (* static __thread uint8_t in_init *)
  table : symbol -> Z;       (* the libc_* pointers, 0 = NULL *)
  backend : B;
  log : list event
}.

Definition set_errno (e : Z) (w : World) : World :=
  mkWorld e (init_cnt w) (init_done w) (in_init w) (table w) (backend w) (log w).
Definition set_init_cnt (c : Z) (w : World) : World :=
  mkWorld (errno w) c (init_done w) (in_init w) (table w) (backend w) (log w).
Definition set_init_done (d : Z) (w : World) : World :=
  mkWorld (errno w) (init_cnt w) d (in_init w) (table w) (backend w) (log w).
Definition set_in_init (i : Z) (w : World) : World :=
  mkWorld (errno w) (init_cnt w) (init_done w) i (table w) (backend w) (log w).
Definition set_table (t : symbol -> Z) (w : World) : World :=
  mkWorld (errno w) (init_cnt w) (init_done w) (in_init w) t (backend w) (log w).
Definition set_backend (b : B) (w : World) : World :=
  mkWorld (errno w) (init_cnt w) (init_done w) (in_init w) (table w) b (log w).
Definition emit (e : event) (w : World) : World :=
  mkWorld (errno w) (init_cnt w) (init_done w) (in_init w) (table w)
          (backend w) (log w ++ [e]).

(** The world at process start: every static is zero, every pointer NULL. *)
Definition start (b : B) (e : Z) : World :=
  mkWorld e 0 0 0 (fun _ => 0) b [].

(** How a piece of code ends. *)
Inductive outcome (A : Type) : Type :=
| Ret (a : A) (w : World)      (* returns a *)
| Aborted (w : World)          (* abort() was called *)
| Spin (w : World)             (* in the wait loop of ensure_init with
                                  init_done == 0: only another thread can
                                  end the loop *)
| Crash (w : World).           (* call through a NULL function pointer *)
Arguments Ret {A} a w.
Arguments Aborted {A} w.
Arguments Spin {A} w.
Arguments Crash {A} w.

Definition M (A : Type) : Type := World -> outcome A.

Definition ret {A} (a : A) : M A := fun w => Ret a w.

Definition bind {A C} (m : M A) (k : A -> M C) : M C :=
  fun w =>
    match m w with
    | Ret a w' => k a w'
    | Aborted w' => Aborted w'
    | Spin w' => Spin w'
    | Crash w' => Crash w'
    end.

Notation "x <- m ;; k" := (bind m (fun x => k))
  (at level 61, m at next level, right associativity).
Notation "m ;; k" := (bind m (fun _ => k))
  (at level 61, right associativity).

Definition get {A} (f : World -> A) : M A := fun w => Ret (f w) w.
Definition modify (f : World -> World) : M unit := fun w => Ret tt (f w).
Definition say (e : event) : M unit := modify (emit e).

Definition final_world {A} (o : outcome A) : World :=
  match o with Ret _ w | Aborted w | Spin w | Crash w => w end.

(** The world [w] after further events [ev], with [errno] and the backend
    state as the last backend call left them. *)
Definition answered (w : World) (ev : list event) (e : Z) (b : B) : World :=
  mkWorld e (init_cnt w) (init_done w) (in_init w) (table w) b (log w ++ ev).

(** *** Library calls *)

Definition abort {A} : M A := fun w => Aborted (emit EvAbort w).

Definition fprintf_stderr (msg : string) : M unit := say (EvStderr msg).

Definition dlsym (sym : string) : M Z :=
  fun w => Ret (dlsym_next sym (backend w)) (emit (EvDlsym sym) w).

Definition MEM_BARRIER : M unit := say EvBarrier.

Definition tas_init : M Z :=
  fun w =>
    let '(r, e, b) := tas_init_impl (backend w) (errno w) in
    Ret r (set_backend b (set_errno e (emit EvTasInit w))).

(** A call of a [tas_*] function. *)
Definition tas (c : call) : M Z :=
  fun w =>
    let '(r, e, b) := tas_impl c (backend w) (errno w) in
    Ret r (set_backend b (set_errno e (emit (EvTas c) w))).

(** A call through the pointer [libc_<s>]. *)
Definition libc (s : symbol) (c : call) : M Z :=
  fun w =>
    let p := table w s in
    if p =? 0 then Crash w
    else
      let '(r, e, b) := libc_impl p c (backend w) (errno w) in
      Ret r (set_backend b (set_errno e (emit (EvLibc p c) w))).

(** *** Helper functions *)

Definition newline : string := String (ascii_of_nat 10) EmptyString.

Definition dlsym_failed (sym : string) : string :=
  ("flextcp socket interpose: dlsym failed (" ++ sym ++ ")" ++ newline)%string.

Definition bind_symbol (sym : string) : M Z :=
  ptr <- dlsym sym ;;
  if ptr =? 0 then
    fprintf_stderr (dlsym_failed sym) ;;
    abort
  else ret ptr.

(** [libc_<s> = bind_symbol("<s>")]. *)
Definition assign (s : symbol) : M unit :=
  p <- bind_symbol (symbol_name s) ;;
  modify (fun w => emit (EvAssign s p) (set_table (upd (table w) s p) w)).

Definition init : M unit :=
  assign Ssocket ;;
  assign Sclose ;;
  assign Sshutdown ;;
  assign Sbind ;;
  assign Sconnect ;;
  assign Slisten ;;
  assign Saccept4 ;;
  assign Saccept ;;
  assign Sfcntl ;;
  assign Sgetsockopt ;;
  assign Ssetsockopt ;;
  assign Sgetsockname ;;
  assign Sgetpeername ;;
  assign Sread ;;
  assign Srecv ;;
  assign Srecvfrom ;;
  assign Srecvmsg ;;
  assign Swrite ;;
  assign Ssend ;;
  assign Ssendto ;;
  assign Ssendmsg ;;
  assign Sselect ;;
  r <- tas_init ;;
  if negb (r =? 0) then abort else ret tt.

(** [__sync_fetch_and_add(&init_cnt, 1)]. *)
Definition fetch_and_add_init_cnt : M Z :=
  fun w => Ret (init_cnt w) (set_init_cnt (wrap_u32 (init_cnt w + 1)) w).

(** [while (init_done == 0) pthread_yield();] run by this thread alone:
    the body does not write [init_done], so the loop is left at once or
    never. *)
Definition wait_for_init_done : M unit :=
  fun w => if init_done w =? 0 then Spin w else Ret tt w.

Definition ensure_init : M unit :=
  say EvEnsureInit ;;
  done <- get init_done ;;
  if done =? 0 then
    flag <- get in_init ;;
    if negb (flag =? 0) then ret tt
    else
      old <- fetch_and_add_init_cnt ;;
      if old =? 0 then
        modify (set_in_init 1) ;;
        init ;;
        modify (set_in_init 0) ;;
        MEM_BARRIER ;;
        say EvPublish ;;
        modify (set_init_done 1)
      else
        wait_for_init_done ;;
        MEM_BARRIER
  else ret tt.

(** *** The intercepted entry points *)

Definition socket (domain type protocol : Z) : M Z :=
  ensure_init ;;
  (* if not a TCP socket, pass call to libc *)
  if negb (domain =? AF_INET) || negb (type =? SOCK_STREAM) then
    libc Ssocket (CSocket domain type protocol)
  else
    tas (CSocket domain type protocol).

(** [(ret = tas_f(...)) == -1 && errno == EBADF]. *)
Definition not_ours (r : Z) : M bool :=
  e <- get errno ;;
  ret ((r =? -1) && (e =? EBADF)).

Definition close (sockfd : Z) : M Z :=
  ensure_init ;;
  r <- tas (CClose sockfd) ;;
  fallback <- not_ours r ;;
  if fallback then libc Sclose (CClose sockfd) else ret r.

Definition shutdown (sockfd how : Z) : M Z :=
  ensure_init ;;
  r <- tas (CShutdown sockfd how) ;;
  fallback <- not_ours r ;;
  if fallback then libc Sshutdown (CShutdown sockfd how) else ret r.

Definition bind_ (sockfd addr addrlen : Z) : M Z :=
  ensure_init ;;
  r <- tas (CBind sockfd addr addrlen) ;;
  fallback <- not_ours r ;;
  if fallback then libc Sbind (CBind sockfd addr addrlen) else ret r.

Definition connect (sockfd addr addrlen : Z) : M Z :=
  ensure_init ;;
  r <- tas (CConnect sockfd addr addrlen) ;;
  fallback <- not_ours r ;;
  if fallback then libc Sconnect (CConnect sockfd addr addrlen) else ret r.

Definition listen (sockfd backlog : Z) : M Z :=
  ensure_init ;;
  r <- tas (CListen sockfd backlog) ;;
  fallback <- not_ours r ;;
  if fallback then libc Slisten (CListen sockfd backlog) else ret r.

Definition accept4 (sockfd addr addrlen flags : Z) : M Z :=
  ensure_init ;;
  r <- tas (CAccept4 sockfd addr addrlen flags) ;;
  fallback <- not_ours r ;;
  if fallback then libc Saccept4 (CAccept4 sockfd addr addrlen flags)
  else ret r.

Definition accept (sockfd addr addrlen : Z) : M Z :=
  ensure_init ;;
  r <- tas (CAccept sockfd addr addrlen) ;;
  fallback <- not_ours r ;;
  if fallback then libc Saccept (CAccept sockfd addr addrlen) else ret r.

(** [va_start; va_arg(val, int); va_end]: the first variadic slot, read
    as an [int], whatever the caller put there. *)
Definition va_arg_int (va : list Z) : Z :=
  to_int (hd va_stale va).

Definition fcntl (sockfd cmd : Z) (va : list Z) : M Z :=
  ensure_init ;;
  let arg := va_arg_int va in
  r <- tas (CFcntl sockfd cmd arg) ;;
  fallback <- not_ours r ;;
  if fallback then libc Sfcntl (CFcntl sockfd cmd arg) else ret r.

Definition getsockopt (sockfd level optname optval optlen : Z) : M Z :=
  ensure_init ;;
  r <- tas (CGetsockopt sockfd level optname optval optlen) ;;
  fallback <- not_ours r ;;
  if fallback then
    libc Sgetsockopt (CGetsockopt sockfd level optname optval optlen)
  else ret r.

Definition setsockopt (sockfd level optname optval optlen : Z) : M Z :=
  ensure_init ;;
  r <- tas (CSetsockopt sockfd level optname optval optlen) ;;
  fallback <- not_ours r ;;
  if fallback then
    libc Ssetsockopt (CSetsockopt sockfd level optname optval optlen)
  else ret r.

Definition getsockname (sockfd addr addrlen : Z) : M Z :=
  ensure_init ;;
  r <- tas (CGetsockname sockfd addr addrlen) ;;
  fallback <- not_ours r ;;
  if fallback then libc Sgetsockname (CGetsockname sockfd addr addrlen)
  else ret r.

Definition getpeername (sockfd addr addrlen : Z) : M Z :=
  ensure_init ;;
  r <- tas (CGetpeername sockfd addr addrlen) ;;
  fallback <- not_ours r ;;
  if fallback then libc Sgetpeername (CGetpeername sockfd addr addrlen)
  else ret r.

Definition read (sockfd buf count : Z) : M Z :=
  ensure_init ;;
  r <- tas (CRead sockfd buf count) ;;
  fallback <- not_ours r ;;
  if fallback then libc Sread (CRead sockfd buf count) else ret r.

Definition recv (sockfd buf len flags : Z) : M Z :=
  ensure_init ;;
  r <- tas (CRecv sockfd buf len flags) ;;
  fallback <- not_ours r ;;
  if fallback then libc Srecv (CRecv sockfd buf len flags) else ret r.

Definition recvfrom (sockfd buf len flags src_addr addrlen : Z) : M Z :=
  ensure_init ;;
  r <- tas (CRecvfrom sockfd buf len flags src_addr addrlen) ;;
  fallback <- not_ours r ;;
  if fallback then
    libc Srecvfrom (CRecvfrom sockfd buf len flags src_addr addrlen)
  else ret r.

Definition recvmsg (sockfd msg flags : Z) : M Z :=
  ensure_init ;;
  r <- tas (CRecvmsg sockfd msg flags) ;;
  fallback <- not_ours r ;;
  if fallback then libc Srecvmsg (CRecvmsg sockfd msg flags) else ret r.

Definition write (sockfd buf count : Z) : M Z :=
  ensure_init ;;
  r <- tas (CWrite sockfd buf count) ;;
  fallback <- not_ours r ;;
  if fallback then libc Swrite (CWrite sockfd buf count) else ret r.

Definition send (sockfd buf len flags : Z) : M Z :=
  ensure_init ;;
  r <- tas (CSend sockfd buf len flags) ;;
  fallback <- not_ours r ;;
  if fallback then libc Ssend (CSend sockfd buf len flags) else ret r.

Definition sendto (sockfd buf len flags dest_addr addrlen : Z) : M Z :=
  ensure_init ;;
  r <- tas (CSendto sockfd buf len flags dest_addr addrlen) ;;
  fallback <- not_ours r ;;
  if fallback then
    libc Ssendto (CSendto sockfd buf len flags dest_addr addrlen)
  else ret r.

Definition sendmsg (sockfd msg flags : Z) : M Z :=
  ensure_init ;;
  r <- tas (CSendmsg sockfd msg flags) ;;
  fallback <- not_ours r ;;
  if fallback then libc Ssendmsg (CSendmsg sockfd msg flags) else ret r.

Definition select (nfds readfds writefds exceptfds timeout : Z) : M Z :=
  tas (CSelect nfds readfds writefds exceptfds timeout).

Definition epoll_create (size : Z) : M Z :=
  tas (CEpollCreate size).

Definition epoll_create1 (flags : Z) : M Z :=
  tas (CEpollCreate1 flags).

Definition epoll_ctl (epfd op fd event : Z) : M Z :=
  tas (CEpollCtl epfd op fd event).

Definition epoll_wait (epfd events maxevents timeout : Z) : M Z :=
  tas (CEpollWait epfd events maxevents timeout).

Definition epoll_pwait (epfd events maxevents timeout sigmask : Z) : M Z :=
  tas (CEpollPwait epfd events maxevents timeout sigmask).

(** *** The entry points as one family *)

(** The entry point a call of the application goes to.  [fcntl] gets its
    third argument through the variadic slot. *)
Definition intercept (c : call) : M Z :=
  match c with
  | CSocket d t p => socket d t p
  | CClose fd => close fd
  | CShutdown fd how => shutdown fd how
  | CBind fd a l => bind_ fd a l
  | CConnect fd a l => connect fd a l
  | CListen fd n => listen fd n
  | CAccept4 fd a l f => accept4 fd a l f
  | CAccept fd a l => accept fd a l
  | CFcntl fd cmd arg => fcntl fd cmd [arg]
  | CGetsockopt fd lv n v l => getsockopt fd lv n v l
  | CSetsockopt fd lv n v l => setsockopt fd lv n v l
  | CGetsockname fd a l => getsockname fd a l
  | CGetpeername fd a l => getpeername fd a l
  | CRead fd b n => read fd b n
  | CRecv fd b n f => recv fd b n f
  | CRecvfrom fd b n f a l => recvfrom fd b n f a l
  | CRecvmsg fd m f => recvmsg fd m f
  | CWrite fd b n => write fd b n
  | CSend fd b n f => send fd b n f
  | CSendto fd b n f a l => sendto fd b n f a l
  | CSendmsg fd m f => sendmsg fd m f
  | CSelect n r w e t => select n r w e t
  | CEpollCreate n => epoll_create n
  | CEpollCreate1 f => epoll_create1 f
  | CEpollCtl ep op fd ev => epoll_ctl ep op fd ev
  | CEpollWait ep ev n t => epoll_wait ep ev n t
  | CEpollPwait ep ev n t m => epoll_pwait ep ev n t m
  end.

End Code.

Arguments Ret {E A} a w.
Arguments Aborted {E A} w.
Arguments Spin {E A} w.
Arguments Crash {E A} w.

End Interpose.

(** close, shutdown, bind, connect, listen, accept, accept4, fcntl,
    getsockopt, setsockopt, getsockname, getpeername, read, recv, recvfrom,
    recvmsg, write, send, sendto, sendmsg. *)
Definition fallback_family (c : call) : bool :=
  match c with
  | CSocket _ _ _ | CSelect _ _ _ _ _ | CEpollCreate _ | CEpollCreate1 _
  | CEpollCtl _ _ _ _ | CEpollWait _ _ _ _ | CEpollPwait _ _ _ _ _ => false
  | _ => true
  end.

(** select, epoll_create, epoll_create1, epoll_ctl, epoll_wait,
    epoll_pwait. *)
Definition multiplex_family (c : call) : bool :=
  match c with
  | CSelect _ _ _ _ _ | CEpollCreate _ | CEpollCreate1 _
  | CEpollCtl _ _ _ _ | CEpollWait _ _ _ _ | CEpollPwait _ _ _ _ _ => true
  | _ => false
  end.

(** The [libc_*] pointer that belongs to an entry point with a native
    path. *)
Definition pointer_of (c : call) : symbol :=
  match c with
  | CSocket _ _ _ => Ssocket
  | CClose _ => Sclose
  | CShutdown _ _ => Sshutdown
  | CBind _ _ _ => Sbind
  | CConnect _ _ _ => Sconnect
  | CListen _ _ => Slisten
  | CAccept4 _ _ _ _ => Saccept4
  | CAccept _ _ _ => Saccept
  | CFcntl _ _ _ => Sfcntl
  | CGetsockopt _ _ _ _ _ => Sgetsockopt
  | CSetsockopt _ _ _ _ _ => Ssetsockopt
  | CGetsockname _ _ _ => Sgetsockname
  | CGetpeername _ _ _ => Sgetpeername
  | CRead _ _ _ => Sread
  | CRecv _ _ _ _ => Srecv
  | CRecvfrom _ _ _ _ _ _ => Srecvfrom
  | CRecvmsg _ _ _ => Srecvmsg
  | CWrite _ _ _ => Swrite
  | CSend _ _ _ _ => Ssend
  | CSendto _ _ _ _ _ _ => Ssendto
  | CSendmsg _ _ _ => Ssendmsg
  | _ => Sselect
  end.

(** The third argument of [fcntl] is an [int] of the caller. *)
Definition int_range (z : Z) : Prop := - 2 ^ 31 <= z < 2 ^ 31.

Definition fcntl_arg_is_int (c : call) : Prop :=
  match c with
  | CFcntl _ _ arg => int_range arg
  | _ => True
  end.

(** * Several threads: the interleavings of [ensure_init]

    Every thread of the process runs [ensure_init] (and, for the one that
    wins the counter, [init]) one shared-memory access at a time; a step
    of the process is a step of one thread.  What [dlsym] and [tas_init]
    return is chosen by the environment at each step. *)

Module Gate.

(** Where a thread is inside [ensure_init], by source line. *)
Inductive pc : Type :=
| L393                 (* if (init_done == 0) *)
| L396                 (* if (in_init) return; *)
| L400                 (* if (__sync_fetch_and_add(&init_cnt, 1) == 0) *)
| L401                 (* in_init = 1; *)
| L402                 (* init(); *)
| InInit (k : nat)     (* in init(): k pointers assigned, the next
                          statement is assignment k or, after the last,
                          tas_init() *)
| InTasInit            (* in tas_init() *)
| L403                 (* in_init = 0; *)
| L404                 (* MEM_BARRIER(); *)
| L405                 (* init_done = 1; *)
| L407                 (* while (init_done == 0) *)
| L408                 (* pthread_yield(); *)
| L410.                (* MEM_BARRIER(); *)

Record thread : Type := mkThread {
  stack : list pc;     (* the activations of ensure_init, innermost first;
                          empty outside ensure_init *)
  in_init : Z;         (* static __thread uint8_t in_init *)
  fetched : bool       (* history: the thread has executed line 400 *)
}.

Record state : Type := mkState {
  init_cnt : Z;            (* static volatile uint32_t init_cnt *)
  init_done : Z;           (* static volatile uint8_t init_done *)
  table : symbol -> Z;     (* the libc_* pointers *)
  aborted : bool;          (* abort() was called *)
  inits : nat;             (* history: how often init() was called *)
  threads : list thread
}.

Definition idle : thread := mkThread [] 0 false.

(** The process at start with [n] threads. *)
Definition initial (n : nat) : state :=
  mkState 0 0 (fun _ => 0) false 0 (repeat idle n).

Fixpoint set_nth {A : Type} (l : list A) (i : nat) (x : A) : list A :=
  match l, i with
  | [], _ => []
  | _ :: l', O => x :: l'
  | y :: l', S i' => y :: set_nth l' i' x
  end.

(** What a thread does next. *)
Inductive action : Type :=
| Enter            (* call an intercepted entry point: enter ensure_init *)
| Go (o : Z).      (* execute the statement at the program counter; [o] is
                      what dlsym or tas_init returns there *)

Definition set_thread (s : state) (i : nat) (t : thread) : state :=
  mkState (init_cnt s) (init_done s) (table s) (aborted s) (inits s)
          (set_nth (threads s) i t).

Definition goto (t : thread) (rest : list pc) (l : pc) : thread :=
  mkThread (l :: rest) (in_init t) (fetched t).

Definition leave (t : thread) (rest : list pc) : thread :=
  mkThread rest (in_init t) (fetched t).

Definition abort (s : state) : state :=
  mkState (init_cnt s) (init_done s) (table s) true (inits s) (threads s).

(** The statement of thread [t] (number [i]) at [l], with [rest] the
    activations below. *)
Definition statement (s : state) (i : nat) (t : thread) (l : pc)
    (rest : list pc) (o : Z) : state :=
  match l with
  | L393 =>
      if init_done s =? 0 then set_thread s i (goto t rest L396)
      else set_thread s i (leave t rest)
  | L396 =>
      if negb (in_init t =? 0) then set_thread s i (leave t rest)
      else set_thread s i (goto t rest L400)
  | L400 =>
      let old := init_cnt s in
      let t' := mkThread (stack t) (in_init t) true in
      mkState (wrap_u32 (old + 1)) (init_done s) (table s) (aborted s)
              (inits s)
              (set_nth (threads s) i
                 (goto t' rest (if old =? 0 then L401 else L407)))
  | L401 =>
      set_thread s i (mkThread (L402 :: rest) 1 (fetched t))
  | L402 =>
      mkState (init_cnt s) (init_done s) (table s) (aborted s)
              (S (inits s))
              (set_nth (threads s) i (goto t rest (InInit 0)))
  | InInit k =>
      match nth_error all_symbols k with
      | Some sym =>
          (* libc_<sym> = bind_symbol("<sym>") *)
          if o =? 0 then abort s
          else
            mkState (init_cnt s) (init_done s) (upd (table s) sym o)
                    (aborted s) (inits s)
                    (set_nth (threads s) i (goto t rest (InInit (S k))))
      | None => set_thread s i (goto t rest InTasInit)
      end
  | InTasInit =>
      (* if (tas_init() != 0) abort(); *)
      if negb (o =? 0) then abort s
      else set_thread s i (goto t rest L403)
  | L403 =>
      set_thread s i (mkThread (L404 :: rest) 0 (fetched t))
  | L404 => set_thread s i (goto t rest L405)
  | L405 =>
      mkState (init_cnt s) 1 (table s) (aborted s) (inits s)
              (set_nth (threads s) i (leave t rest))
  | L407 =>
      if init_done s =? 0 then set_thread s i (goto t rest L408)
      else set_thread s i (goto t rest L410)
  | L408 => set_thread s i (goto t rest L407)
  | L410 => set_thread s i (leave t rest)
  end.

(** Code that runs inside [init] may call an intercepted entry point. *)
Definition may_call_out (l : pc) : bool :=
  match l with InInit _ | InTasInit => true | _ => false end.

(** One step of thread [i]; [None] when the thread cannot do [a]. *)
Definition exec (i : nat) (a : action) (s : state) : option state :=
  if aborted s then None
  else
    match nth_error (threads s) i with
    | None => None
    | Some t =>
        match a, stack t with
        | Enter, [] => Some (set_thread s i (goto t [] L393))
        | Enter, l :: rest =>
            if may_call_out l then
              Some (set_thread s i (goto t (l :: rest) L393))
            else None
        | Go _, [] => None
        | Go o, l :: rest => Some (statement s i t l rest o)
        end
    end.

Definition step (s s' : state) : Prop :=
  exists i a, exec i a s = Some s'.

Inductive reachable (n : nat) : state -> Prop :=
| reach_initial : reachable n (initial n)
| reach_step s s' : reachable n s -> step s s' -> reachable n s'.

(** A schedule run from [s]. *)
Fixpoint run (sched : list (nat * action)) (s : state) : option state :=
  match sched with
  | [] => Some s
  | (i, a) :: sched' =>
      match exec i a s with
      | Some s' => run sched' s'
      | None => None
      end
  end.

(** The thread is on the path of the winner of the counter. *)
Definition winning (l : pc) : bool :=
  match l with
  | L401 | L402 | InInit _ | InTasInit | L403 | L404 | L405 => true
  | _ => false
  end.

(** The outermost activation of a thread. *)
Definition outermost (t : thread) : option pc := last (map Some (stack t)) None.

(** Thread [i] returns from its outermost [ensure_init] in the step from
    [s] to [s']. *)
Definition returns_in (i : nat) (s s' : state) : Prop :=
  exists t t' l,
    nth_error (threads s) i = Some t /\ stack t = [l] /\
    nth_error (threads s') i = Some t' /\ stack t' = [].

End Gate.

(** * Concrete backends, to run the code on *)

Module Demo.
Import Interpose.

(** TAS owns no descriptor: every [tas_*] call answers [-1] with
    [errno = EBADF].  [dlsym] resolves every name to [4096]; the libc
    function behind the pointer answers [0] and leaves [errno]. *)
#[local] Instance tas_owns_nothing : Backends := {
  B := unit;
  dlsym_next := fun _ _ => 4096;
  tas_init_impl := fun b e => (0, e, b);
  tas_impl := fun _ b _ => (-1, EBADF, b);
  libc_impl := fun _ _ b e => (0, e, b);
  va_stale := 0
}.

(** TAS owns every descriptor: every [tas_*] call answers [7]. *)
#[local] Instance tas_owns_all : Backends := {
  B := unit;
  dlsym_next := fun _ _ => 4096;
  tas_init_impl := fun b e => (0, e, b);
  tas_impl := fun _ b e => (7, e, b);
  libc_impl := fun _ _ b e => (0, e, b);
  va_stale := 0
}.

(** Every symbol resolves, [tas_init] fails with [-1]. *)
#[local] Instance tas_init_fails : Backends := {
  B := unit;
  dlsym_next := fun _ _ => 4096;
  tas_init_impl := fun b e => (-1, e, b);
  tas_impl := fun _ b e => (7, e, b);
  libc_impl := fun _ _ b e => (0, e, b);
  va_stale := 0
}.

(** ["accept"] does not resolve. *)
#[local] Instance accept_missing : Backends := {
  B := unit;
  dlsym_next := fun s _ => if String.eqb s "accept" then 0 else 4096;
  tas_init_impl := fun b e => (0, e, b);
  tas_impl := fun _ b e => (7, e, b);
  libc_impl := fun _ _ b e => (0, e, b);
  va_stale := 0
}.

(** A thread after initialisation: [init_done = 1], one [fetch_and_add]
    done, every pointer resolved. *)
Definition ready (E : Backends) (b : B) : World :=
  mkWorld 0 1 1 0 (fun _ => 4096) b [].

(** The initialising thread inside [tas_init]: [in_init = 1], the pointers
    resolved, [init_done] still [0]. *)
Definition inside_init (E : Backends) (b : B) : World :=
  mkWorld 0 1 0 1 (fun _ => 4096) b [].

(** Two threads make their first call at the same time.  Thread 0 wins
    the counter, resolves the 22 names (to [4096]), calls [tas_init],
    which calls an intercepted entry point and then returns [0]; thread 1
    loses, yields once and leaves the loop after thread 0 has set
    [init_done]. *)
Definition two_threads : list (nat * Gate.action) :=
  [(0%nat, Gate.Enter); (1%nat, Gate.Enter);
   (0%nat, Gate.Go 0); (1%nat, Gate.Go 0);            (* 393 *)
   (0%nat, Gate.Go 0); (0%nat, Gate.Go 0);            (* 396, 400: thread 0 *)
   (1%nat, Gate.Go 0); (1%nat, Gate.Go 0);            (* 396, 400: thread 1 *)
   (1%nat, Gate.Go 0); (1%nat, Gate.Go 0);            (* 407, 408 *)
   (0%nat, Gate.Go 0); (0%nat, Gate.Go 0)]            (* 401, 402 *)
  ++ repeat (0%nat, Gate.Go 4096) 22%nat              (* the assignments *)
  ++ [(0%nat, Gate.Go 0);                         (* tas_init() called *)
      (0%nat, Gate.Enter); (0%nat, Gate.Go 0); (0%nat, Gate.Go 0);
      (0%nat, Gate.Go 0);                         (* tas_init() returns 0 *)
      (0%nat, Gate.Go 0); (0%nat, Gate.Go 0); (0%nat, Gate.Go 0);   (* 403 - 405 *)
      (1%nat, Gate.Go 0); (1%nat, Gate.Go 0)].    (* 407, 410 *)

Definition after_two_threads : Gate.state :=
  match Gate.run two_threads (Gate.initial 2) with
  | Some s => s
  | None => Gate.initial 2
  end.

(** The state of [two_threads] when thread 0 has just entered [init]. *)
Definition during_init : Gate.state :=
  match Gate.run (firstn 12 two_threads) (Gate.initial 2) with
  | Some s => s
  | None => Gate.initial 2
  end.

(** One thread makes the first call and [dlsym] fails on the first
    name. *)
Definition first_symbol_missing : list (nat * Gate.action) :=
  [(0%nat, Gate.Enter); (0%nat, Gate.Go 0); (0%nat, Gate.Go 0);
   (0%nat, Gate.Go 0); (0%nat, Gate.Go 0); (0%nat, Gate.Go 0);
   (0%nat, Gate.Go 0)].

Definition after_first_symbol_missing : Gate.state :=
  match Gate.run first_symbol_missing (Gate.initial 1) with
  | Some s => s
  | None => Gate.initial 1
  end.

(** A thread that arrives while another one initialises. *)
Definition latecomer (E : Backends) (b : B) : World :=
  mkWorld 0 1 0 0 (fun _ => 0) b [].

(** The initialising thread before any pointer is assigned. *)
Definition before_assignments (E : Backends) (b : B) : World :=
  mkWorld 0 1 0 1 (fun _ => 0) b [].

(** An initialised thread whose [libc_select] is [NULL]. *)
Definition ready_without_select (E : Backends) (b : B) : World :=
  mkWorld 0 1 1 0 (upd (fun _ => 4096) Sselect 0) b [].

End Demo.

(** * Reference behaviours the code is compared with *)

Module Shapes.
Import Interpose.

Section Shapes.

Context {E : Backends}.

(** The shape shared by the twenty entry points with a native path. *)
Definition try_tas_then_libc (c : call) : M Z :=
  fun w1 =>
    let '(r, e, b) := tas_impl c (backend w1) (errno w1) in
    if (r =? -1) && (e =? EBADF) then
      let p := table w1 (pointer_of c) in
      if p =? 0 then Crash (answered w1 [EvTas c] e b)
      else
        let '(r', e', b') := libc_impl p c b e in
        Ret r' (answered w1 [EvTas c; EvLibc p c] e' b')
    else Ret r (answered w1 [EvTas c] e b).

(** [init] as a loop over the pointers: the assignments of [l], then
    [k]. *)
Fixpoint assign_then {A : Type} (l : list symbol) (k : M A) : M A :=
  match l with
  | [] => k
  | s :: l' => bind (assign s) (fun _ => assign_then l' k)
  end.

(** The first pointer of [l] whose name [dlsym] does not resolve. *)
Fixpoint first_unresolved (l : list symbol) (b : B) : option symbol :=
  match l with
  | [] => None
  | s :: l' =>
      if dlsym_next (symbol_name s) b =? 0 then Some s
      else first_unresolved l' b
  end.

(** The pointers of [l] before the first unresolved one. *)
Fixpoint resolved_prefix (l : list symbol) (b : B) : list symbol :=
  match l with
  | [] => []
  | s :: l' =>
      if dlsym_next (symbol_name s) b =? 0 then []
      else s :: resolved_prefix l' b
  end.

(** The log of resolving and assigning the pointers of [l]. *)
Definition bind_events (l : list symbol) (b : B) : list event :=
  flat_map (fun s => [EvDlsym (symbol_name s);
                      EvAssign s (dlsym_next (symbol_name s) b)]) l.

(** The pointer table after the assignments of [l]. *)
Fixpoint bound_table (t : symbol -> Z) (l : list symbol) (b : B)
  : symbol -> Z :=
  match l with
  | [] => t
  | s :: l' => bound_table (upd t s (dlsym_next (symbol_name s) b)) l' b
  end.

(** A thread that has not been through [ensure_init], in a process where
    no thread has. *)
Definition fresh (w : World) : Prop :=
  init_done w = 0 /\ in_init w = 0 /\ init_cnt w = 0.

(** A computation only appends to the log. *)
Definition grows {A : Type} (m : M A) : Prop :=
  forall w, exists ev, log (final_world (m w)) = log w ++ ev.

(** Some backend call of [l] is not preceded by [EvEnsureInit]. *)
Fixpoint backend_before_gate (l : list event) : bool :=
  match l with
  | [] => false
  | EvEnsureInit :: _ => false
  | e :: l' => is_backend e || backend_before_gate l'
  end.

End Shapes.

End Shapes.

(** * A thread issuing one call after the other *)

Module Program.
Import Interpose.

Section Program.

Context {E : Backends}.

(** The calls of [cs] in order; the results are collected.  The run stops
    where a call does not return. *)
Fixpoint run_calls (cs : list call) : M (list Z) :=
  match cs with
  | [] => ret []
  | c :: cs' =>
      bind (intercept c)
        (fun r => bind (run_calls cs') (fun rs => ret (r :: rs)))
  end.

(** The events that serve a call: entering the gate and backend calls. *)
Definition serving (e : event) : bool :=
  is_ensure_init e || is_backend e.

(** The part of a world that only [ensure_init] writes. *)
Definition statics (w : World) : Z * Z * Z :=
  (init_cnt w, init_done w, in_init w).

(** What an entry point does after the gate, or without it: it appends
    serving events and touches neither the statics nor the table. *)
Definition serves {A : Type} (m : M A) : Prop :=
  forall w, exists ev,
    log (final_world (m w)) = log w ++ ev /\
    forallb serving ev = true /\
    statics (final_world (m w)) = statics w /\
    table (final_world (m w)) = table w.

End Program.

(** The name under which the application calls an entry point with a
    native path. *)
Definition entry_name (c : call) : string :=
  match c with
  | CSocket _ _ _ => "socket"
  | CClose _ => "close"
  | CShutdown _ _ => "shutdown"
  | CBind _ _ _ => "bind"
  | CConnect _ _ _ => "connect"
  | CListen _ _ => "listen"
  | CAccept4 _ _ _ _ => "accept4"
  | CAccept _ _ _ => "accept"
  | CFcntl _ _ _ => "fcntl"
  | CGetsockopt _ _ _ _ _ => "getsockopt"
  | CSetsockopt _ _ _ _ _ => "setsockopt"
  | CGetsockname _ _ _ => "getsockname"
  | CGetpeername _ _ _ => "getpeername"
  | CRead _ _ _ => "read"
  | CRecv _ _ _ _ => "recv"
  | CRecvfrom _ _ _ _ _ _ => "recvfrom"
  | CRecvmsg _ _ _ => "recvmsg"
  | CWrite _ _ _ => "write"
  | CSend _ _ _ _ => "send"
  | CSendto _ _ _ _ _ _ => "sendto"
  | CSendmsg _ _ _ => "sendmsg"
  | CSelect _ _ _ _ _ => "select"
  | CEpollCreate _ => "epoll_create"
  | CEpollCreate1 _ => "epoll_create1"
  | CEpollCtl _ _ _ _ => "epoll_ctl"
  | CEpollWait _ _ _ _ => "epoll_wait"
  | CEpollPwait _ _ _ _ _ => "epoll_pwait"
  end%string.


End Program.

(** * What holds in every reachable state of the interleaving model *)

Module GateInv.
Import Gate.

Definition count_fetched (l : list thread) : nat :=
  List.length (filter fetched l).

Definition bit (b : bool) : nat := if b then 1%nat else 0%nat.

(** Every pointer of the table is resolved. *)
Definition full (tb : symbol -> Z) : Prop := forall sym, tb sym <> 0.

(** What is known of a thread whose outermost activation is at [l], given
    [init_done], the number of [init] calls and the table. *)
Definition at_line (d : Z) (ni : nat) (tb : symbol -> Z) (t : thread)
    (l : pc) : Prop :=
  match l with
  | L393 => in_init t = 0 /\ (fetched t = true -> d = 1)
  | L396 | L400 => in_init t = 0 /\ fetched t = false
  | L401 => in_init t = 0 /\ fetched t = true /\ ni = 0%nat /\ d = 0
  | L402 => in_init t = 1 /\ fetched t = true /\ ni = 0%nat /\ d = 0
  | InInit k =>
      in_init t = 1 /\ fetched t = true /\ ni = 1%nat /\ d = 0 /\
      forall j sym, (j < k)%nat -> nth_error all_symbols j = Some sym ->
                    tb sym <> 0
  | InTasInit | L403 =>
      in_init t = 1 /\ fetched t = true /\ ni = 1%nat /\ d = 0 /\ full tb
  | L404 | L405 =>
      in_init t = 0 /\ fetched t = true /\ ni = 1%nat /\ d = 0 /\ full tb
  | L407 | L408 => in_init t = 0 /\ fetched t = true
  | L410 => in_init t = 0 /\ fetched t = true /\ d = 1
  end.

Definition thread_inv (d : Z) (ni : nat) (tb : symbol -> Z) (t : thread)
  : Prop :=
  match stack t with
  | [] => in_init t = 0 /\ (fetched t = true -> d = 1)
  | [l] => at_line d ni tb t l
  | [n; l] =>
      may_call_out l = true /\ (n = L393 \/ n = L396) /\ at_line d ni tb t l
  | _ => False
  end.

(** The thread is the one that runs the initialisation. *)
Definition is_winner (t : thread) : Prop :=
  exists l, outermost t = Some l /\ winning l = true.

Record Inv (n : nat) (s : state) : Prop := mkInv {
  inv_length : List.length (threads s) = n;
  inv_cnt : init_cnt s = Z.of_nat (count_fetched (threads s));
  inv_done : init_done s = 0 \/ init_done s = 1;
  inv_once : (inits s <= 1)%nat;
  inv_ready : init_done s = 1 -> inits s = 1%nat /\ full (table s);
  inv_started :
    inits s <> 0%nat \/ init_done s <> 0 ->
    (0 < count_fetched (threads s))%nat;
  inv_threads :
    forall i t, nth_error (threads s) i = Some t ->
                thread_inv (init_done s) (inits s) (table s) t;
  inv_winner :
    forall i j ti tj,
      nth_error (threads s) i = Some ti ->
      nth_error (threads s) j = Some tj ->
      is_winner ti -> is_winner tj -> i = j
}.

(** Some schedule from [s] ends with [init_done] set and the process
    alive. *)
Definition completes (s : state) : Prop :=
  exists sched s',
    run sched s = Some s' /\ init_done s' = 1 /\ aborted s' = false.

End GateInv.

(** * Facts on the code of one thread *)

Module InterposeFacts.
Import Interpose Shapes.

Section Facts.

Context {E : Backends}.

Lemma to_int_id (z : Z) : int_range z -> to_int z = z.
Proof.
  unfold int_range, to_int. intros H.
  rewrite Z.mod_small; lia.
Qed.

Lemma to_int_range (z : Z) : int_range (to_int z).
Proof.
  unfold int_range, to_int.
  pose proof (Z.mod_pos_bound (z + 2 ^ 31) (2 ^ 32)). lia.
Qed.

Lemma fallback_shape (c : call) (w w1 : World) :
  fallback_family c = true ->
  fcntl_arg_is_int c ->
  ensure_init w = Ret tt w1 ->
  intercept c w = try_tas_then_libc c w1.
Proof.
  intros Hf Hi He.
  destruct c; try discriminate Hf;
    cbn [intercept];
    unfold close, shutdown, bind_, connect, listen, accept4, accept, fcntl,
      getsockopt, setsockopt, getsockname, getpeername, read, recv,
      recvfrom, recvmsg, write, send, sendto, sendmsg;
    unfold try_tas_then_libc, bind; rewrite He;
    try (unfold va_arg_int; cbn [hd]; rewrite (to_int_id _ Hi));
    unfold tas, not_ours, libc, bind, get, ret; cbn [pointer_of];
    destruct (tas_impl _ (backend w1) (errno w1)) as [[r e] b];
    cbn -[Z.eqb];
    destruct ((r =? -1) && (e =? EBADF)); try reflexivity;
    unfold answered, set_backend, set_errno, emit;
    cbn [table backend errno log init_cnt init_done in_init];
    destruct (table w1 _ =? 0); try reflexivity;
    destruct (libc_impl _ _ b e) as [[r' e'] b'];
    now rewrite <- app_assoc.
Qed.

Lemma socket_shape (d t p : Z) (w w1 : World) :
  ensure_init w = Ret tt w1 ->
  socket d t p w =
  if (d =? AF_INET) && (t =? SOCK_STREAM)
  then tas (CSocket d t p) w1
  else libc Ssocket (CSocket d t p) w1.
Proof.
  intros He. unfold socket, bind. rewrite He.
  destruct (d =? AF_INET); destruct (t =? SOCK_STREAM); reflexivity.
Qed.

(** C2. [socket(domain, type, protocol)], once [ensure_init] has returned:
    when [domain = AF_INET] and [type = SOCK_STREAM] the call goes to
    [tas_socket] and libc is not called; for every other pair it goes
    through the resolved pointer [libc_socket] with the same arguments and
    TAS is not called. *)
Theorem socket_routing (d t p : Z) (w w1 : World) :
  ensure_init w = Ret tt w1 ->
  table w1 Ssocket <> 0 ->
  let c := CSocket d t p in
  let ptr := table w1 Ssocket in
  let '(r, e, b) := tas_impl c (backend w1) (errno w1) in
  let '(r', e', b') := libc_impl ptr c (backend w1) (errno w1) in
  (d = AF_INET /\ t = SOCK_STREAM ->
   socket d t p w = Ret r (answered w1 [EvTas c] e b)) /\
  (~ (d = AF_INET /\ t = SOCK_STREAM) ->
   socket d t p w = Ret r' (answered w1 [EvLibc ptr c] e' b')) /\
  (existsb is_tas (log (final_world (socket d t p w))) =
   existsb is_tas (log w1) || ((d =? AF_INET) && (t =? SOCK_STREAM))).
Proof.
  intros He Hp. cbv zeta.
  rewrite (socket_shape d t p w w1 He).
  unfold tas, libc. apply Z.eqb_neq in Hp. rewrite Hp.
  destruct (tas_impl _ (backend w1) (errno w1)) as [[r e] b].
  destruct (libc_impl _ _ (backend w1) (errno w1)) as [[r' e'] b'].
  split; [| split].
  - intros [-> ->]. reflexivity.
  - intros Hn.
    destruct (Z.eqb_spec d AF_INET); destruct (Z.eqb_spec t SOCK_STREAM);
      cbn; try reflexivity.
    exfalso; apply Hn; now split.
  - destruct ((d =? AF_INET) && (t =? SOCK_STREAM)); cbn;
      rewrite existsb_app; cbn.
    + now rewrite !orb_true_r.
    + now rewrite !orb_false_r.
Qed.

(** C9. [socket(AF_INET, SOCK_STREAM, protocol)] returns what
    [tas_socket] answers, whatever it is: also for [-1] with
    [errno = EBADF] the only backend call in the log is the TAS call, and
    [libc_socket] is not called. *)
Theorem socket_no_fallback (p : Z) (w w1 : World) (r e : Z) (b : B) :
  ensure_init w = Ret tt w1 ->
  tas_impl (CSocket AF_INET SOCK_STREAM p) (backend w1) (errno w1)
    = (r, e, b) ->
  socket AF_INET SOCK_STREAM p w =
    Ret r (answered w1 [EvTas (CSocket AF_INET SOCK_STREAM p)] e b) /\
  count is_libc (log (final_world (socket AF_INET SOCK_STREAM p w))) =
    count is_libc (log w1).
Proof.
  intros He Ht.
  rewrite (socket_shape _ _ p w w1 He).
  rewrite !Z.eqb_refl. cbn [andb]. unfold tas. rewrite Ht.
  split; [reflexivity|].
  cbn. unfold count. rewrite filter_app, length_app. cbn. lia.
Qed.

(** C3. Every entry point of the readiness family (select, epoll_create,
    epoll_create1, epoll_ctl, epoll_wait, epoll_pwait) calls its [tas_*]
    function in whatever world it is entered and returns its answer; the
    log grows by that one TAS call, also when the answer is [-1] with
    [errno = EBADF]. *)
Theorem multiplex_routing (c : call) (w : World) :
  multiplex_family c = true ->
  let '(r, e, b) := tas_impl c (backend w) (errno w) in
  intercept c w = Ret r (answered w [EvTas c] e b) /\
  count is_libc (log (final_world (intercept c w))) = count is_libc (log w).
Proof.
  intros Hm.
  destruct c; try discriminate Hm; cbn [intercept];
    unfold select, epoll_create, epoll_create1, epoll_ctl, epoll_wait,
      epoll_pwait, tas;
    destruct (tas_impl _ (backend w) (errno w)) as [[r e] b];
    (split; [reflexivity|]);
    cbn; unfold count; rewrite filter_app, length_app; cbn; lia.
Qed.

(** C10. [fcntl(sockfd, cmd, ...)] reads one variadic slot as an [int],
    whatever [cmd] is and whatever the caller passed: the slots after the
    first are not looked at, and the same [int] goes to [tas_fcntl] and,
    on [-1] with [errno = EBADF], to [libc_fcntl]. *)
Theorem fcntl_one_int (sockfd cmd : Z) (va : list Z) (w w1 : World) :
  ensure_init w = Ret tt w1 ->
  let arg := to_int (hd va_stale va) in
  int_range arg /\
  fcntl sockfd cmd va w = try_tas_then_libc (CFcntl sockfd cmd arg) w1 /\
  fcntl sockfd cmd va w = fcntl sockfd cmd (firstn 1 va) w.
Proof.
  intros He arg.
  assert (Ha : int_range arg) by apply to_int_range.
  split; [exact Ha | split].
  - rewrite <- (fallback_shape (CFcntl sockfd cmd arg) w w1 eq_refl Ha He).
    cbn [intercept]. unfold fcntl, va_arg_int. cbn [hd].
    rewrite (to_int_id arg Ha). reflexivity.
  - unfold fcntl, va_arg_int. destruct va; reflexivity.
Qed.

(** ** The gate *)

Ltac unfold_entry :=
  unfold socket, close, shutdown, bind_, connect, listen, accept4, accept,
    fcntl, getsockopt, setsockopt, getsockname, getpeername, read, recv,
    recvfrom, recvmsg, write, send, sendto, sendmsg, select, epoll_create,
    epoll_create1, epoll_ctl, epoll_wait, epoll_pwait.

Ltac fields :=
  unfold answered, set_backend, set_errno, set_init_cnt, set_init_done,
    set_in_init, set_table, emit;
  cbn [errno init_cnt init_done in_init table backend log].

Lemma ensure_init_ready (w : World) :
  init_done w <> 0 -> ensure_init w = Ret tt (emit EvEnsureInit w).
Proof.
  intros H. unfold ensure_init, bind, say, modify, get. fields.
  apply Z.eqb_neq in H. now rewrite H.
Qed.

Lemma ensure_init_reentrant (w : World) :
  init_done w = 0 -> in_init w <> 0 ->
  ensure_init w = Ret tt (emit EvEnsureInit w).
Proof.
  intros Hd Hi. unfold ensure_init, bind, say, modify, get. fields.
  rewrite Hd. cbn [Z.eqb]. cbv beta. fields.
  apply Z.eqb_neq in Hi. rewrite Hi. reflexivity.
Qed.

Lemma count_app (f : event -> bool) (l l' : list event) :
  count f (l ++ l') = (count f l + count f l')%nat.
Proof. unfold count. now rewrite filter_app, length_app. Qed.

(** C6. With [in_init] set and [init_done] still [0], [ensure_init]
    returns at once: no wait loop, no [fetch_and_add], no second run of
    [init].  Hence every entry point called from inside the
    initialisation procedure (the pointers are resolved by then) returns,
    with [init_done] still [0] and without a [dlsym] or [tas_init] call. *)
Theorem reentrant_call_returns (w : World) :
  init_done w = 0 ->
  in_init w <> 0 ->
  ensure_init w = Ret tt (emit EvEnsureInit w) /\
  forall c : call,
    (forall s, table w s <> 0) ->
    exists r w',
      intercept c w = Ret r w' /\
      init_done w' = 0 /\ in_init w' = in_init w /\
      init_cnt w' = init_cnt w /\
      count is_dlsym (log w') = count is_dlsym (log w) /\
      count is_tas_init (log w') = count is_tas_init (log w).
Proof.
  intros Hd Hi. split; [now apply ensure_init_reentrant|].
  intros c Hp.
  pose proof (ensure_init_reentrant w Hd Hi) as He.
  destruct c; cbn [intercept]; unfold_entry; unfold bind; try rewrite He;
    unfold tas, libc, not_ours, bind, get, ret; fields.
  all: repeat (match goal with
       | |- context [table _ ?s =? 0] =>
           let H := fresh in
           pose proof (Hp s) as H; apply Z.eqb_neq in H; rewrite H; clear H
       | |- context [libc_impl ?p ?c ?b ?e] =>
           destruct (libc_impl p c b e) as [[? ?] ?]
       | |- context [tas_impl ?c ?b ?e] =>
           destruct (tas_impl c b e) as [[? ?] ?]
       | |- context [if ?x then _ else _] => destruct x
       end; fields).
  all: eexists; eexists; (split; [reflexivity|]); fields;
       rewrite ?count_app; cbn; repeat split; try assumption; lia.
Qed.

(** ** The log only grows *)

Lemma grows_ret {A : Type} (a : A) : grows (ret a).
Proof. intros w. exists []. cbn. now rewrite app_nil_r. Qed.

Lemma grows_bind {A C : Type} (m : M A) (k : A -> M C) :
  grows m -> (forall a, grows (k a)) -> grows (bind m k).
Proof.
  intros Hm Hk w. unfold bind. destruct (Hm w) as [ev Hev].
  destruct (m w) as [a w1|w1|w1|w1]; cbn [final_world] in *;
    try (now exists ev).
  destruct (Hk a w1) as [ev' Hev']. exists (ev ++ ev').
  now rewrite Hev', Hev, app_assoc.
Qed.

Ltac grows_prim :=
  let w := fresh "w" in
  intros w;
  repeat match goal with
         | |- context [tas_impl ?c ?b ?e] =>
             destruct (tas_impl c b e) as [[? ?] ?]
         | |- context [libc_impl ?p ?c ?b ?e] =>
             destruct (libc_impl p c b e) as [[? ?] ?]
         | |- context [tas_init_impl ?b ?e] =>
             destruct (tas_init_impl b e) as [[? ?] ?]
         | |- context [if ?x then _ else _] => destruct x
         end;
  cbn [final_world]; fields;
  first [ now (exists []; rewrite app_nil_r) | eexists; reflexivity ].

Lemma grows_get {A : Type} (f : World -> A) : grows (get f).
Proof. unfold get. grows_prim. Qed.

Lemma grows_say (e : event) : grows (say e).
Proof. unfold say, modify. grows_prim. Qed.

Lemma grows_tas (c : call) : grows (tas c).
Proof. unfold tas. grows_prim. Qed.

Lemma grows_libc (s : symbol) (c : call) : grows (libc s c).
Proof. unfold libc. grows_prim. Qed.

Lemma grows_abort {A : Type} : grows (@abort _ A).
Proof. unfold abort. grows_prim. Qed.

Lemma grows_modify (f : World -> World) :
  (forall w, log (f w) = log w) -> grows (modify f).
Proof.
  intros H w. exists []. cbn. now rewrite app_nil_r, H.
Qed.

Lemma grows_dlsym (sym : string) : grows (dlsym sym).
Proof. unfold dlsym. grows_prim. Qed.

Lemma grows_modify_table (s : symbol) (p : Z) :
  grows (modify (fun w => emit (EvAssign s p)
                            (set_table (upd (table w) s p) w))).
Proof. unfold modify. grows_prim. Qed.

Lemma grows_bind_symbol (sym : string) : grows (bind_symbol sym).
Proof.
  unfold bind_symbol, fprintf_stderr.
  apply grows_bind; [apply grows_dlsym|intros ptr].
  destruct (ptr =? 0); [|apply grows_ret].
  apply grows_bind; [apply grows_say|intros _]. apply grows_abort.
Qed.

Lemma grows_assign (s : symbol) : grows (assign s).
Proof.
  unfold assign.
  apply grows_bind; [apply grows_bind_symbol|intros p].
  apply grows_modify_table.
Qed.

Lemma grows_init : grows init.
Proof.
  unfold init.
  repeat (apply grows_bind; [apply grows_assign|intros _]).
  apply grows_bind; [unfold tas_init; grows_prim|intros r].
  destruct (negb (r =? 0)); [apply grows_abort|apply grows_ret].
Qed.

(** [ensure_init] after its entry has been logged. *)
Lemma ensure_init_logs_entry :
  exists rest : M unit,
    grows rest /\ ensure_init = bind (say EvEnsureInit) (fun _ => rest).
Proof.
  eexists. split; [|reflexivity].
  apply grows_bind; [apply grows_get|intros d].
  destruct (d =? 0); [|apply grows_ret].
  apply grows_bind; [apply grows_get|intros f].
  destruct (negb (f =? 0)); [apply grows_ret|].
  apply grows_bind; [unfold fetch_and_add_init_cnt; grows_prim|intros old].
  destruct (old =? 0).
  - apply grows_bind; [now apply grows_modify|intros _].
    apply grows_bind; [apply grows_init|intros _].
    apply grows_bind; [now apply grows_modify|intros _].
    apply grows_bind; [apply grows_say|intros _].
    apply grows_bind; [apply grows_say|intros _].
    now apply grows_modify.
  - apply grows_bind; [unfold wait_for_init_done; grows_prim|intros _].
    unfold MEM_BARRIER; apply grows_say.
Qed.

(** [socket] and the fallback family enter [ensure_init] before anything
    else: the first event such a call adds to the log is [EvEnsureInit],
    so none of its backend calls comes before the gate. *)
Lemma gate_first (c : call) (w : World) :
  multiplex_family c = false ->
  exists ev,
    log (final_world (intercept c w)) = log w ++ EvEnsureInit :: ev /\
    backend_before_gate (EvEnsureInit :: ev) = false.
Proof.
  intros Hm.
  destruct ensure_init_logs_entry as (rest & Hrest & Heq).
  assert (H : exists k : unit -> M Z,
             (forall u, grows (k u)) /\
             intercept c = bind ensure_init k).
  { destruct c; try discriminate Hm; cbn [intercept]; unfold_entry;
      eexists; (split; [|reflexivity]); intros u; cbv beta;
      unfold not_ours;
      repeat first [ apply grows_bind; [|intros ?] | apply grows_tas
                   | apply grows_libc | apply grows_get | apply grows_ret
                   | match goal with
                     | |- grows (if ?x then _ else _) => destruct x
                     end ]. }
  destruct H as (k & Hk & Hic). rewrite Hic, Heq.
  assert (Hg : grows (bind rest k)) by (apply grows_bind; auto).
  destruct (Hg (emit EvEnsureInit w)) as [ev Hev].
  exists ev. split; [|reflexivity].
  unfold bind, say, modify in *. cbn [log emit] in Hev.
  rewrite <- app_assoc in Hev. cbn [app] in Hev. rewrite <- Hev.
  destruct (rest (emit EvEnsureInit w)); reflexivity.
Qed.

(** ** Entry points and the gate *)

(** C4, at the entry points that break it: called as the first
    intercepted operation of the process, an entry point of the readiness
    family reaches TAS although [ensure_init] was never entered: the log
    is the TAS call alone, [init_done] and [init_cnt] are still [0]. *)
Theorem multiplex_skips_gate (c : call) (b0 : B) (e0 : Z) :
  multiplex_family c = true ->
  let w' := final_world (intercept c (start b0 e0)) in
  log w' = [EvTas c] /\
  backend_before_gate (log w') = true /\
  count is_ensure_init (log w') = 0%nat /\
  init_done w' = 0 /\ init_cnt w' = 0.
Proof.
  intros Hm.
  destruct c; try discriminate Hm; cbn [intercept]; unfold_entry;
    unfold tas, start; fields;
    destruct (tas_impl _ b0 e0) as [[r e] b]; cbn; repeat split.
Qed.

(** ** [init] *)

Lemma init_is_loop :
  init = assign_then all_symbols
           (bind tas_init
              (fun r => if negb (r =? 0) then abort else ret tt)).
Proof. reflexivity. Qed.

Lemma assign_resolved (s : symbol) (w : World) :
  dlsym_next (symbol_name s) (backend w) <> 0 ->
  assign s w =
  Ret tt (mkWorld (errno w) (init_cnt w) (init_done w) (in_init w)
            (upd (table w) s (dlsym_next (symbol_name s) (backend w)))
            (backend w)
            (log w ++ bind_events [s] (backend w))).
Proof.
  intros H. apply Z.eqb_neq in H.
  unfold assign, bind_symbol, dlsym, bind, ret, modify. fields.
  rewrite H. fields. now rewrite <- app_assoc.
Qed.

Lemma assign_unresolved (s : symbol) (w : World) :
  dlsym_next (symbol_name s) (backend w) = 0 ->
  assign s w =
  Aborted (mkWorld (errno w) (init_cnt w) (init_done w) (in_init w)
             (table w) (backend w)
             (log w ++ [EvDlsym (symbol_name s);
                        EvStderr (dlsym_failed (symbol_name s));
                        EvAbort])).
Proof.
  intros H.
  unfold assign, bind_symbol, dlsym, bind, ret, modify, fprintf_stderr, say,
    modify, abort. fields.
  rewrite H. cbn [Z.eqb]. fields. now rewrite <- !app_assoc.
Qed.

Lemma assign_then_resolved {A : Type} (l : list symbol) (k : M A) :
  forall w : World,
    first_unresolved l (backend w) = None ->
    assign_then l k w =
    k (mkWorld (errno w) (init_cnt w) (init_done w) (in_init w)
         (bound_table (table w) l (backend w)) (backend w)
         (log w ++ bind_events l (backend w))).
Proof.
  induction l as [|s l IH]; intros w H.
  - cbn. rewrite app_nil_r. now destruct w.
  - cbn [first_unresolved] in H.
    destruct (Z.eqb_spec (dlsym_next (symbol_name s) (backend w)) 0)
      as [|Hs]; [discriminate|].
    cbn [assign_then]. unfold bind at 1.
    rewrite (assign_resolved s w Hs).
    rewrite IH by exact H. fields.
    cbn [bound_table]. f_equal. f_equal.
    unfold bind_events. cbn. now rewrite <- app_assoc.
Qed.

Lemma assign_then_unresolved {A : Type} (l : list symbol) (k : M A) :
  forall (w : World) (s : symbol),
    first_unresolved l (backend w) = Some s ->
    assign_then l k w =
    Aborted
      (mkWorld (errno w) (init_cnt w) (init_done w) (in_init w)
         (bound_table (table w) (resolved_prefix l (backend w)) (backend w))
         (backend w)
         (log w ++ bind_events (resolved_prefix l (backend w)) (backend w)
                ++ [EvDlsym (symbol_name s);
                    EvStderr (dlsym_failed (symbol_name s));
                    EvAbort])).
Proof.
  induction l as [|a l IH]; intros w s H; [discriminate|].
  cbn [first_unresolved resolved_prefix] in *.
  destruct (Z.eqb_spec (dlsym_next (symbol_name a) (backend w)) 0)
    as [Hz|Hs].
  - injection H as <-. cbn [assign_then]. unfold bind.
    rewrite (assign_unresolved a w Hz). reflexivity.
  - cbn [assign_then]. unfold bind at 1.
    rewrite (assign_resolved a w Hs).
    rewrite (IH _ s) by exact H. fields.
    cbn [bound_table]. f_equal. f_equal.
    unfold bind_events. cbn. now rewrite <- !app_assoc.
Qed.

Lemma all_symbols_complete (s : symbol) : In s all_symbols.
Proof. destruct s; cbn; tauto. Qed.

Lemma first_unresolved_none (l : list symbol) (b : B) :
  first_unresolved l b = None ->
  forall s, In s l -> dlsym_next (symbol_name s) b <> 0.
Proof.
  induction l as [|a l IH]; intros H s Hin; [destruct Hin|].
  cbn in H.
  destruct (Z.eqb_spec (dlsym_next (symbol_name a) b) 0); [discriminate|].
  destruct Hin as [<-|Hin]; auto.
Qed.

Lemma bound_table_other (l : list symbol) (b : B) (s : symbol) :
  forall t, ~ In s l -> bound_table t l b s = t s.
Proof.
  induction l as [|a l IH]; intros t Hn; [reflexivity|].
  cbn [bound_table]. rewrite IH by (intros H; apply Hn; now right).
  unfold upd. destruct (symbol_eqb a s) eqn:Heq; [|reflexivity].
  exfalso. apply Hn. left. destruct a, s; try discriminate Heq; reflexivity.
Qed.

Lemma bound_table_in (l : list symbol) (b : B) (s : symbol) :
  forall t, In s l -> bound_table t l b s = dlsym_next (symbol_name s) b.
Proof.
  induction l as [|a l IH]; intros t Hin; [destruct Hin|].
  cbn [bound_table].
  destruct (in_dec (fun x y : symbol =>
                      ltac:(decide equality) : {x = y} + {x <> y}) s l)
    as [Hl|Hl].
  - now apply IH.
  - destruct Hin as [->|Hin]; [|contradiction].
    rewrite bound_table_other by exact Hl.
    unfold upd. now destruct s.
Qed.

(** The first call of the process: the thread wins the counter and runs
    [init] with [in_init] set. *)
Lemma ensure_init_fresh (w : World) :
  fresh w ->
  ensure_init w =
  bind init
    (fun _ => bind (modify (set_in_init 0))
       (fun _ => bind MEM_BARRIER
          (fun _ => bind (say EvPublish)
             (fun _ => modify (set_init_done 1)))))
    (mkWorld (errno w) 1 0 1 (table w) (backend w) (log w ++ [EvEnsureInit])).
Proof.
  intros (Hd & Hi & Hc).
  unfold ensure_init, say, get, fetch_and_add_init_cnt.
  unfold bind at 1. unfold modify at 1. unfold bind at 1. fields.
  rewrite Hd. cbn [Z.eqb]. unfold bind at 1. fields. rewrite Hi.
  cbn [Z.eqb negb]. unfold bind at 1. fields. rewrite Hc.
  cbn [Z.eqb]. unfold bind at 1. unfold modify at 1. fields.
  reflexivity.
Qed.

(** X14.  On the first call of the process: when some
    name does not resolve, the thread stops at the first such name, writes
    the [dlsym failed] line for it to stderr and aborts; when every name
    resolves and [tas_init] returns nonzero, it aborts right after
    [tas_init], writing nothing itself.  Either way the failing call is
    made once, [ensure_init] does not return and [init_done] stays [0]. *)
Theorem startup_failure_aborts (w : World) :
  fresh w ->
  (exists s, dlsym_next (symbol_name s) (backend w) = 0) \/
  fst (fst (tas_init_impl (backend w) (errno w))) <> 0 ->
  exists w' : World,
    ensure_init w = Aborted w' /\
    init_done w' = 0 /\
    log w' =
      log w ++ EvEnsureInit ::
      match first_unresolved all_symbols (backend w) with
      | Some s =>
          bind_events (resolved_prefix all_symbols (backend w)) (backend w)
          ++ [EvDlsym (symbol_name s);
              EvStderr (dlsym_failed (symbol_name s)); EvAbort]
      | None =>
          bind_events all_symbols (backend w) ++ [EvTasInit; EvAbort]
      end.
Proof.
  intros Hf Hfail.
  rewrite (ensure_init_fresh w Hf), init_is_loop.
  destruct (first_unresolved all_symbols (backend w)) as [s|] eqn:Hu.
  - unfold bind at 1.
    rewrite (assign_then_unresolved all_symbols _ _ s) by exact Hu.
    eexists. split; [reflexivity|]. fields. split; [reflexivity|].
    now rewrite <- app_assoc.
  - destruct Hfail as [[s Hs]|Hr].
    + exfalso.
      exact (first_unresolved_none _ _ Hu s (all_symbols_complete s) Hs).
    + unfold bind at 1.
      rewrite assign_then_resolved by exact Hu. fields.
      unfold bind at 1, tas_init. fields.
      destruct (tas_init_impl (backend w) (errno w)) as [[r e] b].
      cbn [fst] in Hr. apply Z.eqb_neq in Hr. rewrite Hr. cbn [negb].
      unfold abort. fields.
      eexists. split; [reflexivity|]. fields. split; [reflexivity|].
      now rewrite <- !app_assoc.
Qed.

(** The first call of the process when nothing fails. *)
Lemma ensure_init_success (w : World) (e : Z) (b : B) :
  fresh w ->
  first_unresolved all_symbols (backend w) = None ->
  tas_init_impl (backend w) (errno w) = (0, e, b) ->
  ensure_init w =
  Ret tt (mkWorld e 1 1 0 (bound_table (table w) all_symbols (backend w)) b
            (log w ++ EvEnsureInit :: bind_events all_symbols (backend w)
                   ++ [EvTasInit; EvBarrier; EvPublish])).
Proof.
  intros Hf Hu Ht.
  rewrite (ensure_init_fresh w Hf), init_is_loop.
  unfold bind at 1.
  rewrite assign_then_resolved by exact Hu. fields.
  unfold bind at 1, tas_init. fields. rewrite Ht. cbn [Z.eqb negb].
  unfold ret, bind, modify, MEM_BARRIER, say, modify. fields.
  now rewrite <- !app_assoc.
Qed.

(** Once [init_done] is set no entry point writes a [libc_*] pointer. *)
Lemma ready_table_fixed (c : call) (w : World) :
  init_done w <> 0 ->
  table (final_world (intercept c w)) = table w /\
  init_done (final_world (intercept c w)) = init_done w /\
  count is_assign (log (final_world (intercept c w))) =
    count is_assign (log w).
Proof.
  intros Hd.
  pose proof (ensure_init_ready w Hd) as He.
  destruct c; cbn [intercept]; unfold_entry; unfold bind; try rewrite He;
    unfold tas, libc, not_ours, bind, get, ret; fields.
  all: repeat (match goal with
       | |- context [libc_impl ?p ?c ?b ?e] =>
           destruct (libc_impl p c b e) as [[? ?] ?]
       | |- context [tas_impl ?c ?b ?e] =>
           destruct (tas_impl c b e) as [[? ?] ?]
       | |- context [if ?x then _ else _] => destruct x
       end; fields).
  all: cbn [final_world]; fields; rewrite ?count_app; cbn;
       repeat split; lia.
Qed.

End Facts.

(** ** The theorems at concrete backends *)

Lemma socket_routing_witness :
  socket AF_INET SOCK_STREAM 0 (Demo.ready Demo.tas_owns_all tt) =
    Ret 7 (answered (Demo.ready Demo.tas_owns_all tt)
             [EvEnsureInit; EvTas (CSocket AF_INET SOCK_STREAM 0)] 0 tt) /\
  socket 1 SOCK_STREAM 0 (Demo.ready Demo.tas_owns_all tt) =
    Ret 0 (answered (Demo.ready Demo.tas_owns_all tt)
             [EvEnsureInit; EvLibc 4096 (CSocket 1 SOCK_STREAM 0)] 0 tt).
Proof.
  split.
  - pose proof (socket_routing AF_INET SOCK_STREAM 0
                  (Demo.ready Demo.tas_owns_all tt)
                  (emit EvEnsureInit (Demo.ready Demo.tas_owns_all tt))
                  eq_refl ltac:(discriminate)) as H.
    cbn in H. destruct H as [H _].
    exact (H (conj eq_refl eq_refl)).
  - pose proof (socket_routing 1 SOCK_STREAM 0
                  (Demo.ready Demo.tas_owns_all tt)
                  (emit EvEnsureInit (Demo.ready Demo.tas_owns_all tt))
                  eq_refl ltac:(discriminate)) as H.
    cbn in H. destruct H as [_ [H _]].
    apply H. intros [H1 _]. discriminate H1.
Defined.

Lemma socket_no_fallback_witness :
  socket AF_INET SOCK_STREAM 0 (Demo.ready Demo.tas_owns_nothing tt) =
    Ret (-1) (answered (Demo.ready Demo.tas_owns_nothing tt)
                [EvEnsureInit; EvTas (CSocket AF_INET SOCK_STREAM 0)]
                EBADF tt).
Proof.
  exact (proj1 (socket_no_fallback 0
                  (Demo.ready Demo.tas_owns_nothing tt)
                  (emit EvEnsureInit (Demo.ready Demo.tas_owns_nothing tt))
                  (-1) EBADF tt eq_refl eq_refl)).
Defined.

Lemma multiplex_routing_witness :
  intercept (CEpollWait 5 0 16 (-1)) (Demo.ready Demo.tas_owns_nothing tt) =
    Ret (-1) (answered (Demo.ready Demo.tas_owns_nothing tt)
                [EvTas (CEpollWait 5 0 16 (-1))] EBADF tt).
Proof.
  exact (proj1 (multiplex_routing (CEpollWait 5 0 16 (-1))
                  (Demo.ready Demo.tas_owns_nothing tt) eq_refl)).
Defined.

(** [fcntl(3, F_SETLK, ptr)] with a 64-bit pointer in the slot: both
    backends see its low 32 bits. *)
Lemma fcntl_one_int_witness :
  fcntl 3 6 [140737488355072; 99] (Demo.ready Demo.tas_owns_nothing tt) =
    Ret 0 (answered (Demo.ready Demo.tas_owns_nothing tt)
             [EvEnsureInit; EvTas (CFcntl 3 6 (-256));
              EvLibc 4096 (CFcntl 3 6 (-256))] EBADF tt).
Proof.
  exact (proj1 (proj2 (fcntl_one_int 3 6 [140737488355072; 99]
                  (Demo.ready Demo.tas_owns_nothing tt)
                  (emit EvEnsureInit (Demo.ready Demo.tas_owns_nothing tt))
                  eq_refl))).
Defined.

Lemma reentrant_call_returns_witness :
  ensure_init (Demo.inside_init Demo.tas_owns_nothing tt) =
  Ret tt (emit EvEnsureInit (Demo.inside_init Demo.tas_owns_nothing tt)).
Proof.
  exact (proj1 (reentrant_call_returns
                  (Demo.inside_init Demo.tas_owns_nothing tt)
                  eq_refl ltac:(discriminate))).
Defined.

Lemma multiplex_skips_gate_witness :
  log (final_world
         (epoll_create 1 (start (E := Demo.tas_owns_all) tt 0))) =
  [EvTas (CEpollCreate 1)].
Proof.
  exact (proj1 (multiplex_skips_gate (E := Demo.tas_owns_all)
                  (CEpollCreate 1) tt 0 eq_refl)).
Defined.

Lemma startup_failure_aborts_witness :
  exists w',
    ensure_init (start (E := Demo.accept_missing) tt 0) = Aborted w' /\
    init_done w' = 0 /\
    log w' =
      [EvEnsureInit;
       EvDlsym "socket"; EvAssign Ssocket 4096;
       EvDlsym "close"; EvAssign Sclose 4096;
       EvDlsym "shutdown"; EvAssign Sshutdown 4096;
       EvDlsym "bind"; EvAssign Sbind 4096;
       EvDlsym "connect"; EvAssign Sconnect 4096;
       EvDlsym "listen"; EvAssign Slisten 4096;
       EvDlsym "accept4"; EvAssign Saccept4 4096;
       EvDlsym "accept";
       EvStderr (dlsym_failed "accept");
       EvAbort].
Proof.
  exact (startup_failure_aborts (start (E := Demo.accept_missing) tt 0)
           (conj eq_refl (conj eq_refl eq_refl))
           (or_introl (ex_intro _ Saccept eq_refl))).
Defined.

End InterposeFacts.

(** * More on the code of one thread *)

Module InterposeMore.
Import Interpose Shapes Program InterposeFacts.

Ltac unfold_entry :=
  unfold socket, close, shutdown, bind_, connect, listen, accept4, accept,
    fcntl, getsockopt, setsockopt, getsockname, getpeername, read, recv,
    recvfrom, recvmsg, write, send, sendto, sendmsg, select, epoll_create,
    epoll_create1, epoll_ctl, epoll_wait, epoll_pwait.

Ltac fields :=
  unfold answered, set_backend, set_errno, set_init_cnt, set_init_done,
    set_in_init, set_table, emit;
  cbn [errno init_cnt init_done in_init table backend log].

Section More.

Context {E : Backends}.

Lemma final_world_bind {A C : Type} (m : M A) (k : A -> M C) (w : World) :
  final_world (bind m k w) =
  match m w with
  | Ret a w1 => final_world (k a w1)
  | Aborted w1 | Spin w1 | Crash w1 => w1
  end.
Proof. unfold bind. destruct (m w); reflexivity. Qed.

Lemma entry_name_pointer (c : call) :
  multiplex_family c = false ->
  symbol_name (pointer_of c) = entry_name c.
Proof. destruct c; intros H; try discriminate H; reflexivity. Qed.

Lemma serves_ret {A : Type} (a : A) : serves (ret a).
Proof.
  intros w. exists []. cbn. now rewrite app_nil_r.
Qed.

Lemma serves_bind {A C : Type} (m : M A) (k : A -> M C) :
  serves m -> (forall a, serves (k a)) -> serves (bind m k).
Proof.
  intros Hm Hk w. rewrite final_world_bind.
  destruct (Hm w) as (ev & Hl & Hs & Hst & Ht).
  destruct (m w) as [a w1|w1|w1|w1]; cbn [final_world] in *;
    try (exists ev; repeat split; assumption).
  destruct (Hk a w1) as (ev' & Hl' & Hs' & Hst' & Ht').
  exists (ev ++ ev'). rewrite Hl', Hl, app_assoc, forallb_app, Hs, Hs'.
  repeat split; congruence.
Qed.

Lemma serves_tas (c : call) : serves (tas c).
Proof.
  intros w. unfold tas.
  destruct (tas_impl c (backend w) (errno w)) as [[r e] b].
  exists [EvTas c]. cbn. auto.
Qed.

Lemma serves_libc (s : symbol) (c : call) : serves (libc s c).
Proof.
  intros w. unfold libc. destruct (table w s =? 0).
  - exists []. cbn. now rewrite app_nil_r.
  - destruct (libc_impl (table w s) c (backend w) (errno w)) as [[r e] b].
    exists [EvLibc (table w s) c]. cbn. auto.
Qed.

Lemma serves_get {A : Type} (f : World -> A) : serves (get f).
Proof. intros w. exists []. cbn. now rewrite app_nil_r. Qed.

Lemma serves_say_gate : serves (say EvEnsureInit).
Proof. intros w. exists [EvEnsureInit]. cbn. auto. Qed.

Ltac serves_tac :=
  repeat first
    [ apply serves_bind; [|intros ?] | apply serves_tas | apply serves_libc
    | apply serves_get | apply serves_ret | apply serves_say_gate
    | match goal with
      | |- serves (if ?x then _ else _) => destruct x
      end ].

(** The code of an entry point behind [ensure_init]. *)
Lemma behind_gate (c : call) :
  exists k : M Z,
    serves k /\
    (multiplex_family c = false ->
     intercept c = bind ensure_init (fun _ => k)) /\
    (multiplex_family c = true -> intercept c = k).
Proof.
  destruct c; cbn [intercept multiplex_family]; unfold_entry;
    eexists; (split; [|split; intros H; try discriminate H; reflexivity]);
    unfold not_ours; serves_tac.
Qed.

Lemma ready_serves (c : call) (w : World) :
  init_done w <> 0 ->
  exists ev,
    log (final_world (intercept c w)) = log w ++ ev /\
    forallb serving ev = true /\
    statics (final_world (intercept c w)) = statics w /\
    table (final_world (intercept c w)) = table w.
Proof.
  intros Hd. destruct (behind_gate c) as (k & Hk & Hn & Hm).
  destruct (multiplex_family c).
  - rewrite (Hm eq_refl). apply Hk.
  - rewrite (Hn eq_refl), final_world_bind, (ensure_init_ready w Hd).
    destruct (Hk (emit EvEnsureInit w)) as (ev & Hl & Hs & Hst & Ht).
    exists (EvEnsureInit :: ev). rewrite Hl, Hst, Ht. cbn.
    rewrite <- app_assoc. auto.
Qed.

(** X1. A thread that finds the initialisation under way ([init_done] is [0],
    the counter is taken, [in_init] is clear) stays in the wait loop of
    [ensure_init]: the call of [socket] or of an entry point of the
    fallback family has counted itself in [init_cnt] and has reached
    neither TAS nor libc. *)
Theorem latecomer_reaches_no_backend (c : call) (w : World) :
  init_done w = 0 ->
  in_init w = 0 ->
  init_cnt w <> 0 ->
  multiplex_family c = false ->
  intercept c w =
  Spin (mkWorld (errno w) (wrap_u32 (init_cnt w + 1)) 0 0 (table w)
          (backend w) (log w ++ [EvEnsureInit])).
Proof.
  intros Hd Hi Hc Hm.
  destruct (behind_gate c) as (k & _ & Hn & _). rewrite (Hn Hm).
  assert (He : ensure_init w =
               Spin (mkWorld (errno w) (wrap_u32 (init_cnt w + 1)) 0 0
                       (table w) (backend w) (log w ++ [EvEnsureInit]))).
  { unfold ensure_init, say, get, fetch_and_add_init_cnt,
      wait_for_init_done.
    unfold bind at 1. unfold modify at 1. unfold bind at 1. fields.
    rewrite Hd. cbn [Z.eqb]. unfold bind at 1. fields. rewrite Hi.
    cbn [Z.eqb negb]. unfold bind at 1. fields.
    apply Z.eqb_neq in Hc. rewrite Hc. unfold bind. fields.
    reflexivity. }
  unfold bind. now rewrite He.
Qed.

Lemma ready_run_serves (cs : list call) :
  forall w : World,
    init_done w <> 0 ->
    exists ev,
      log (final_world (run_calls cs w)) = log w ++ ev /\
      forallb serving ev = true /\
      statics (final_world (run_calls cs w)) = statics w /\
      table (final_world (run_calls cs w)) = table w.
Proof.
  induction cs as [|c cs IH]; intros w Hd.
  - exists []. cbn. now rewrite app_nil_r.
  - cbn [run_calls]. rewrite final_world_bind.
    destruct (ready_serves c w Hd) as (ev & Hl & Hs & Hst & Ht).
    destruct (intercept c w) as [r w1|w1|w1|w1]; cbn [final_world] in *;
      try (exists ev; repeat split; assumption).
    assert (Hd1 : init_done w1 <> 0).
    { unfold statics in Hst. injection Hst as _ Hx _. now rewrite Hx. }
    rewrite final_world_bind.
    destruct (IH w1 Hd1) as (ev' & Hl' & Hs' & Hst' & Ht').
    exists (ev ++ ev').
    destruct (run_calls cs w1) as [rs w2|w2|w2|w2];
      cbn [final_world ret] in *;
      rewrite Hl', Hl, app_assoc, forallb_app, Hs, Hs';
      repeat split; congruence.
Qed.

Lemma serving_counts (ev : list event) :
  forallb serving ev = true ->
  count is_tas_init ev = 0%nat /\ count is_dlsym ev = 0%nat /\
  count is_assign ev = 0%nat.
Proof.
  unfold count. induction ev as [|e ev IH]; [now cbn|].
  cbn [forallb]. intros H. apply andb_prop in H. destruct H as [He H].
  destruct (IH H) as (H1 & H2 & H3).
  destruct e; try discriminate He; cbn; auto.
Qed.

(** X2. Once [init_done] is set, no sequence of intercepted calls initialises
    again: the run calls neither [dlsym] nor [tas_init], assigns no
    [libc_*] pointer, and leaves [init_cnt], [init_done], [in_init] and
    the pointer table as they are. *)
Theorem ready_stays_ready (cs : list call) (w : World) :
  init_done w <> 0 ->
  let w' := final_world (run_calls cs w) in
  statics w' = statics w /\
  table w' = table w /\
  count is_dlsym (log w') = count is_dlsym (log w) /\
  count is_tas_init (log w') = count is_tas_init (log w) /\
  count is_assign (log w') = count is_assign (log w).
Proof.
  intros Hd w'.
  destruct (ready_run_serves cs w Hd) as (ev & Hl & Hs & Hst & Ht).
  destruct (serving_counts ev Hs) as (H1 & H2 & H3).
  fold w' in Hl, Hst, Ht. rewrite Hl, !count_app, H1, H2, H3.
  repeat split; auto.
Qed.

Lemma count_cons (f : event -> bool) (e : event) (l : list event) :
  count f (e :: l) = ((if f e then 1 else 0) + count f l)%nat.
Proof. unfold count. cbn. now destruct (f e). Qed.

Lemma count_bind_events (l : list symbol) (b : B) :
  count is_tas_init (bind_events l b) = 0%nat /\
  count is_dlsym (bind_events l b) = List.length l.
Proof.
  unfold count, bind_events.
  induction l as [|s l [IH1 IH2]]; [now cbn|]. cbn. auto.
Qed.

Lemma resolved_prefix_short (l : list symbol) (b : B) (s : symbol) :
  first_unresolved l b = Some s ->
  (List.length (resolved_prefix l b) < List.length l)%nat.
Proof.
  induction l as [|a l IH]; [discriminate|]. cbn.
  destruct (dlsym_next (symbol_name a) b =? 0); cbn; [lia|].
  intros H. specialize (IH H). lia.
Qed.

Lemma ensure_init_unresolved (w : World) (s : symbol) :
  fresh w ->
  first_unresolved all_symbols (backend w) = Some s ->
  ensure_init w =
  Aborted
    (mkWorld (errno w) 1 0 1
       (bound_table (table w) (resolved_prefix all_symbols (backend w))
          (backend w))
       (backend w)
       (log w ++ EvEnsureInit ::
        bind_events (resolved_prefix all_symbols (backend w)) (backend w)
        ++ [EvDlsym (symbol_name s);
            EvStderr (dlsym_failed (symbol_name s)); EvAbort])).
Proof.
  intros Hf Hu. rewrite (ensure_init_fresh w Hf), init_is_loop.
  unfold bind at 1.
  rewrite (assign_then_unresolved all_symbols _ _ s) by exact Hu.
  fields. now rewrite <- app_assoc.
Qed.

Lemma ensure_init_tas_init_fails (w : World) (r e : Z) (b : B) :
  fresh w ->
  first_unresolved all_symbols (backend w) = None ->
  tas_init_impl (backend w) (errno w) = (r, e, b) ->
  r <> 0 ->
  ensure_init w =
  Aborted
    (mkWorld e 1 0 1 (bound_table (table w) all_symbols (backend w)) b
       (log w ++ EvEnsureInit :: bind_events all_symbols (backend w)
              ++ [EvTasInit; EvAbort])).
Proof.
  intros Hf Hu Ht Hr. rewrite (ensure_init_fresh w Hf), init_is_loop.
  unfold bind at 1.
  rewrite assign_then_resolved by exact Hu. fields.
  unfold bind at 1, tas_init. fields. rewrite Ht.
  apply Z.eqb_neq in Hr. rewrite Hr. cbn [negb].
  unfold abort. fields. now rewrite <- !app_assoc.
Qed.

(** The first pass of a thread through the gate. *)
Lemma first_gate (w : World) :
  fresh w ->
  (count is_tas_init (log (final_world (ensure_init w))) <=
   count is_tas_init (log w) + 1)%nat /\
  (count is_dlsym (log (final_world (ensure_init w))) <=
   count is_dlsym (log w) + 22)%nat /\
  match ensure_init w with
  | Ret _ w' => init_done w' = 1
  | Aborted _ => True
  | _ => False
  end.
Proof.
  intros Hf.
  destruct (first_unresolved all_symbols (backend w)) as [s|] eqn:Hu.
  - pose proof (resolved_prefix_short _ _ _ Hu) as Hlen.
    change (List.length all_symbols) with 22%nat in Hlen.
    rewrite (ensure_init_unresolved w s Hf Hu). cbn [final_world log].
    destruct (count_bind_events (resolved_prefix all_symbols (backend w))
                (backend w)) as [H1 H2].
    rewrite !count_app, !count_cons, !count_app, H1, H2.
    remember (List.length (resolved_prefix all_symbols (backend w))) as m.
    cbn. repeat split; lia.
  - destruct (count_bind_events all_symbols (backend w)) as [H1 H2].
    change (List.length all_symbols) with 22%nat in H2.
    destruct (tas_init_impl (backend w) (errno w)) as [[r e] b] eqn:Ht.
    destruct (Z.eq_dec r 0) as [->|Hr].
    + rewrite (ensure_init_success w e b Hf Hu Ht).
      cbn [final_world log init_done].
      rewrite !count_app, !count_cons, !count_app, H1, H2. cbn.
      repeat split; lia.
    + rewrite (ensure_init_tas_init_fails w r e b Hf Hu Ht Hr).
      cbn [final_world log].
      rewrite !count_app, !count_cons, !count_app, H1, H2. cbn.
      repeat split; lia.
Qed.

Lemma bind_unfold {A C : Type} (m : M A) (k : A -> M C) (w : World) :
  bind m k w =
  match m w with
  | Ret a w' => k a w'
  | Aborted w' => Aborted w'
  | Spin w' => Spin w'
  | Crash w' => Crash w'
  end.
Proof. reflexivity. Qed.

Lemma final_world_bind_ret {A C : Type} (m : M A) (f : A -> C) (w : World) :
  final_world (bind m (fun a => ret (f a)) w) = final_world (m w).
Proof. unfold bind, ret. now destruct (m w). Qed.

Lemma serving_same_counts (l l' ev : list event) :
  l' = l ++ ev -> forallb serving ev = true ->
  count is_tas_init l' = count is_tas_init l /\
  count is_dlsym l' = count is_dlsym l.
Proof.
  intros -> H. destruct (serving_counts ev H) as (H1 & H2 & _).
  rewrite !count_app, H1, H2. lia.
Qed.

(** X3. From the start of the process, whatever calls one thread makes and
    in whatever order: [tas_init] is called at most once and [dlsym] at
    most 22 times, also when the run ends in an abort. *)
Theorem initialises_at_most_once (cs : list call) :
  forall w : World,
    fresh w ->
    (count is_tas_init (log (final_world (run_calls cs w))) <=
     count is_tas_init (log w) + 1)%nat /\
    (count is_dlsym (log (final_world (run_calls cs w))) <=
     count is_dlsym (log w) + 22)%nat.
Proof.
  induction cs as [|c cs IH]; intros w Hf; [cbn; lia|].
  cbn [run_calls]. rewrite final_world_bind.
  destruct (behind_gate c) as (k & Hk & Hn & Hm).
  destruct (multiplex_family c).
  - (* no gate: the thread stays fresh *)
    rewrite (Hm eq_refl).
    destruct (Hk w) as (ev & Hl & Hs & Hst & _).
    destruct (serving_same_counts _ _ _ Hl Hs) as [H1 H2].
    destruct (k w) as [r w1|w1|w1|w1]; cbn [final_world] in *; try lia.
    rewrite final_world_bind_ret.
    assert (Hf1 : fresh w1).
    { unfold statics in Hst. injection Hst as Hc Hd Hi.
      unfold fresh in *. rewrite Hc, Hd, Hi. exact Hf. }
    destruct (IH w1 Hf1). lia.
  - rewrite (Hn eq_refl), (bind_unfold ensure_init).
    destruct (first_gate w Hf) as (G1 & G2 & G3).
    destruct (ensure_init w) as [[] w1|w1|w1|w1]; cbn [final_world] in *;
      try lia; try contradiction.
    destruct (Hk w1) as (ev & Hl & Hs & Hst & _).
    destruct (serving_same_counts _ _ _ Hl Hs) as [H1 H2].
    destruct (k w1) as [r w2|w2|w2|w2]; cbn [final_world] in *; try lia.
    rewrite final_world_bind_ret.
    assert (Hd2 : init_done w2 <> 0).
    { unfold statics in Hst. injection Hst as _ Hd _. lia. }
    destruct (ready_run_serves cs w2 Hd2) as (ev' & Hl' & Hs' & _).
    destruct (serving_same_counts _ _ _ Hl' Hs') as [H3 H4]. lia.
Qed.

(** X4. The first intercepted call of the process, when TAS does not own the
    descriptor: the thread initialises and the call is served by the libc
    function that [dlsym] returned for the name of this very entry point
    ([close] by ["close"], [accept4] by ["accept4"], ...). *)
Theorem first_call_native_by_name (c : call) (w : World) (e : Z)
    (b b1 : B) :
  fresh w ->
  first_unresolved all_symbols (backend w) = None ->
  tas_init_impl (backend w) (errno w) = (0, e, b) ->
  fallback_family c = true ->
  fcntl_arg_is_int c ->
  tas_impl c b e = (-1, EBADF, b1) ->
  let p := dlsym_next (entry_name c) (backend w) in
  let '(r', e', b') := libc_impl p c b1 EBADF in
  p <> 0 /\
  exists w',
    intercept c w = Ret r' w' /\
    log w' = log w ++ EvEnsureInit :: bind_events all_symbols (backend w)
                   ++ [EvTasInit; EvBarrier; EvPublish;
                       EvTas c; EvLibc p c] /\
    errno w' = e' /\ backend w' = b' /\ init_done w' = 1.
Proof.
  intros Hf Hu Hi Hfam Harg Ht p.
  destruct (libc_impl p c b1 EBADF) as [[r' e'] b'] eqn:Hl.
  assert (Hm : multiplex_family c = false)
    by (destruct c; try discriminate Hfam; reflexivity).
  assert (Hp : p <> 0).
  { unfold p. rewrite <- (entry_name_pointer c Hm).
    apply (first_unresolved_none _ _ Hu), all_symbols_complete. }
  rewrite (fallback_shape c w _ Hfam Harg (ensure_init_success w e b Hf Hu Hi)).
  unfold try_tas_then_libc. cbn [backend errno table]. rewrite Ht.
  rewrite bound_table_in by apply all_symbols_complete.
  rewrite (entry_name_pointer c Hm). fold p.
  apply Z.eqb_neq in Hp. rewrite Hp, !Z.eqb_refl. cbn [andb].
  apply Z.eqb_neq in Hp. rewrite Hl.
  split; [exact Hp|]. eexists. split; [reflexivity|].
  unfold answered. cbn [log errno backend init_done].
  rewrite <- app_assoc, <- app_comm_cons, <- app_assoc. auto.
Qed.

(** X5. [libc_select] is assigned by [init] and never called: with
    [init_done] set and every other pointer resolved, every entry point
    returns, also when [libc_select] is [NULL]. *)
Theorem select_pointer_never_used (c : call) (w : World) :
  init_done w <> 0 ->
  (forall s, s <> Sselect -> table w s <> 0) ->
  exists r w', intercept c w = Ret r w'.
Proof.
  intros Hd Hp.
  pose proof (ensure_init_ready w Hd) as He.
  destruct c; cbn [intercept]; unfold_entry; unfold bind; try rewrite He;
    unfold tas, libc, not_ours, bind, get, ret; fields.
  all: repeat (match goal with
       | |- context [table _ ?s =? 0] =>
           let H := fresh in
           assert (H : table w s <> 0) by (apply Hp; discriminate);
           apply Z.eqb_neq in H; rewrite H; clear H
       | |- context [libc_impl ?p ?c ?b ?e] =>
           destruct (libc_impl p c b e) as [[? ?] ?]
       | |- context [tas_impl ?c ?b ?e] =>
           destruct (tas_impl c b e) as [[? ?] ?]
       | |- context [if ?x then _ else _] => destruct x
       end; fields).
  all: eexists; eexists; reflexivity.
Qed.

(** X6. A call made from inside the initialisation before the pointer of its
    entry point is assigned, for a descriptor TAS does not own, goes
    through the [NULL] pointer: the gate lets the call pass and nothing
    checks the pointer. *)
Theorem early_reentrant_call_crashes (c : call) (w : World) (b : B) :
  init_done w = 0 ->
  in_init w <> 0 ->
  fallback_family c = true ->
  fcntl_arg_is_int c ->
  table w (pointer_of c) = 0 ->
  tas_impl c (backend w) (errno w) = (-1, EBADF, b) ->
  intercept c w = Crash (answered w [EvEnsureInit; EvTas c] EBADF b).
Proof.
  intros Hd Hi Hfam Harg Hp Ht.
  rewrite (fallback_shape c w _ Hfam Harg (ensure_init_reentrant w Hd Hi)).
  unfold try_tas_then_libc. fields. rewrite Ht, Hp. cbn.
  now rewrite <- app_assoc.
Qed.

Lemma try_tas_logs_call (c : call) (w1 : World) :
  exists tl,
    log (final_world (try_tas_then_libc c w1)) = log w1 ++ EvTas c :: tl.
Proof.
  unfold try_tas_then_libc.
  destruct (tas_impl c (backend w1) (errno w1)) as [[r e] b].
  destruct ((r =? -1) && (e =? EBADF)); [|now exists []].
  destruct (table w1 (pointer_of c) =? 0); [now exists []|].
  destruct (libc_impl _ c b e) as [[r' e'] b']. eexists. reflexivity.
Qed.

(** X7. [fcntl] hands the backends the third argument of the caller unchanged
    exactly when that argument fits an [int]: a wider value (a pointer to
    a [struct flock], say) reaches [tas_fcntl] and [libc_fcntl] cut to its
    low 32 bits. *)
Theorem fcntl_argument_intact_iff_int (sockfd cmd v : Z) (rest : list Z)
    (w w1 : World) :
  ensure_init w = Ret tt w1 ->
  (fcntl sockfd cmd (v :: rest) w =
     try_tas_then_libc (CFcntl sockfd cmd v) w1 <-> int_range v) /\
  fcntl sockfd cmd (v :: rest) w =
    try_tas_then_libc (CFcntl sockfd cmd (to_int v)) w1 /\
  (to_int v - v) mod 2 ^ 32 = 0.
Proof.
  intros He.
  assert (Hcut : fcntl sockfd cmd (v :: rest) w =
                 try_tas_then_libc (CFcntl sockfd cmd (to_int v)) w1).
  { rewrite <- (fallback_shape (CFcntl sockfd cmd (to_int v)) w w1 eq_refl
                  (to_int_range v) He).
    cbn [intercept]. unfold fcntl, va_arg_int. cbn [hd].
    now rewrite (to_int_id _ (to_int_range v)). }
  split; [|split; [exact Hcut|]].
  - split.
    + intros Heq. rewrite Hcut in Heq.
      apply (f_equal (fun o => log (final_world o))) in Heq.
      destruct (try_tas_logs_call (CFcntl sockfd cmd (to_int v)) w1)
        as [tl1 H1].
      destruct (try_tas_logs_call (CFcntl sockfd cmd v) w1) as [tl2 H2].
      rewrite H1, H2 in Heq. apply app_inv_head in Heq.
      injection Heq as Hv _. rewrite <- Hv. apply to_int_range.
    + intros Hr. rewrite Hcut. now rewrite (to_int_id v Hr).
  - unfold to_int.
    replace ((v + 2 ^ 31) mod 2 ^ 32 - 2 ^ 31 - v)
      with ((v + 2 ^ 31) mod 2 ^ 32 - (v + 2 ^ 31)) by lia.
    rewrite Zminus_mod, Zmod_mod, <- Zminus_mod.
    now rewrite Z.sub_diag.
Qed.

End More.

End InterposeMore.

(** * The entry points where the arguments or the gate differ *)

Module EntryCases.
Import Interpose Shapes Program InterposeFacts InterposeMore.

Section Cases.

Context {E : Backends}.







Lemma multiplex_is_tas (c : call) :
  multiplex_family c = true -> intercept c = tas c.
Proof. destruct c; intros H; try discriminate H; reflexivity. Qed.

(** C5, where the code breaks it.  A thread whose intercepted calls are
    all readiness calls (select and the epoll calls) never enters [ensure_init]:
    every call returns at once with what TAS answers, also while
    [init_done] is [0] and another thread has taken the counter, and the
    run leaves [init_cnt], [init_done], [in_init] and the pointers as they
    were; it logs the TAS calls and nothing else, so such a thread
    neither waits for the initialisation nor performs it. *)
Theorem readiness_calls_never_wait (cs : list call) :
  forall w : World,
    forallb multiplex_family cs = true ->
    exists rs w',
      run_calls cs w = Ret rs w' /\
      log w' = log w ++ map EvTas cs /\
      statics w' = statics w /\
      table w' = table w.
Proof.
  induction cs as [|c cs IH]; intros w Hm.
  - exists [], w. cbn. now rewrite app_nil_r.
  - cbn [forallb] in Hm. apply andb_prop in Hm. destruct Hm as [Hc Hm].
    cbn [run_calls]. rewrite bind_unfold, (multiplex_is_tas c Hc).
    unfold tas at 1.
    destruct (tas_impl c (backend w) (errno w)) as [[r e] b].
    destruct (IH (set_backend b (set_errno e (emit (EvTas c) w))) Hm)
      as (rs & w' & Hr & Hl & Hs & Ht).
    exists (r :: rs), w'. rewrite bind_unfold, Hr. unfold ret.
    split; [reflexivity|]. rewrite Hl, Hs, Ht. cbn [log emit set_backend
      set_errno map]. rewrite <- app_assoc. auto.
Qed.

Lemma bind_events_silent (l : list symbol) (b : B) :
  count is_stderr (bind_events l b) = 0%nat.
Proof.
  unfold count, bind_events. induction l as [|s l IH]; cbn; auto.
Qed.

(** C7, where the code breaks it.  On the first call of the process,
    when every name resolves and [tas_init] returns nonzero: [init] calls
    [abort] right after [tas_init]; between the two this file writes
    nothing to stderr (where [bind_symbol] writes its [dlsym failed] line
    before it aborts).  [ensure_init] does not return and [init_done]
    stays [0]. *)
Theorem tas_init_failure_writes_nothing (w : World) (r e : Z) (b : B) :
  fresh w ->
  first_unresolved all_symbols (backend w) = None ->
  tas_init_impl (backend w) (errno w) = (r, e, b) ->
  r <> 0 ->
  exists w' : World,
    ensure_init w = Aborted w' /\
    log w' = log w ++ EvEnsureInit :: bind_events all_symbols (backend w)
                   ++ [EvTasInit; EvAbort] /\
    count is_stderr (log w') = count is_stderr (log w) /\
    init_done w' = 0.
Proof.
  intros Hf Hu Ht Hr.
  rewrite (ensure_init_tas_init_fails w r e b Hf Hu Ht Hr).
  eexists. split; [reflexivity|]. cbn [log init_done].
  split; [reflexivity|]. split; [|reflexivity].
  rewrite count_app, count_cons, count_app, bind_events_silent. cbn. lia.
Qed.

End Cases.

(** ** At concrete backends *)



Lemma readiness_calls_never_wait_witness :
  exists rs w',
    run_calls [CEpollWait 5 0 16 (-1)]
      (Demo.latecomer Demo.tas_owns_all tt) = Ret rs w' /\
    log w' = [EvTas (CEpollWait 5 0 16 (-1))] /\
    statics w' = (1, 0, 0) /\
    table w' = table (Demo.latecomer Demo.tas_owns_all tt).
Proof.
  exact (readiness_calls_never_wait [CEpollWait 5 0 16 (-1)]
           (Demo.latecomer Demo.tas_owns_all tt) eq_refl).
Defined.

Lemma tas_init_failure_writes_nothing_witness :
  exists w',
    ensure_init (start (E := Demo.tas_init_fails) tt 0) = Aborted w' /\
    log w' =
      log (start (E := Demo.tas_init_fails) tt 0) ++
      EvEnsureInit ::
      bind_events (E := Demo.tas_init_fails) all_symbols tt
      ++ [EvTasInit; EvAbort] /\
    count is_stderr (log w') = 0%nat /\
    init_done w' = 0.
Proof.
  exact (tas_init_failure_writes_nothing
           (start (E := Demo.tas_init_fails) tt 0) (-1) 0 tt
           (conj eq_refl (conj eq_refl eq_refl)) eq_refl eq_refl
           ltac:(discriminate)).
Defined.


End EntryCases.

(** * Facts on the interleaving model *)

Module GateFacts.
Import Gate GateInv.

(** ** Lists of threads *)

Lemma length_set_nth {A : Type} (l : list A) :
  forall i x, List.length (set_nth l i x) = List.length l.
Proof.
  induction l as [|y l IH]; intros [|i] x; cbn; auto.
Qed.

Lemma nth_error_set_nth_eq {A : Type} (l : list A) :
  forall i x y, nth_error l i = Some y -> nth_error (set_nth l i x) i = Some x.
Proof.
  induction l as [|z l IH]; intros [|i] x y H; cbn in *;
    try discriminate; eauto.
Qed.

Lemma nth_error_set_nth_neq {A : Type} (l : list A) :
  forall i j x, i <> j -> nth_error (set_nth l i x) j = nth_error l j.
Proof.
  induction l as [|z l IH]; intros [|i] [|j] x H; cbn; auto.
  congruence.
Qed.

Lemma count_fetched_set_nth (l : list thread) :
  forall i t t',
    nth_error l i = Some t ->
    (count_fetched (set_nth l i t') + bit (fetched t) =
     count_fetched l + bit (fetched t'))%nat.
Proof.
  unfold count_fetched.
  induction l as [|y l IH]; intros [|i] t t' H; cbn in *; try discriminate.
  - injection H as ->.
    destruct (fetched t), (fetched t'); cbn; lia.
  - specialize (IH i t t' H). destruct (fetched y); cbn; lia.
Qed.

Lemma count_fetched_pos (l : list thread) :
  forall i t, nth_error l i = Some t -> fetched t = true ->
              (0 < count_fetched l)%nat.
Proof.
  unfold count_fetched.
  induction l as [|y l IH]; intros [|i] t H Hf; cbn in *; try discriminate.
  - injection H as ->. rewrite Hf. cbn. lia.
  - specialize (IH i t H Hf). destruct (fetched y); cbn; lia.
Qed.

Lemma count_fetched_lt (l : list thread) :
  forall i t, nth_error l i = Some t -> fetched t = false ->
              (count_fetched l < List.length l)%nat.
Proof.
  unfold count_fetched.
  induction l as [|y l IH]; intros [|i] t H Hf; cbn in *; try discriminate.
  - injection H as ->. rewrite Hf.
    pose proof (filter_length_le fetched l). lia.
  - specialize (IH i t H Hf). destruct (fetched y); cbn; lia.
Qed.

(** ** Threads under a change of the shared variables *)

Lemma winner_fetched d ni tb (t : thread) :
  thread_inv d ni tb t -> is_winner t -> fetched t = true.
Proof.
  unfold thread_inv, is_winner, outermost.
  intros H (l & Hl & Hw).
  destruct (stack t) as [|a [|b [|c r]]]; cbn in Hl; try discriminate.
  - injection Hl as ->. destruct l; cbn in *; try discriminate; tauto.
  - injection Hl as ->. destruct H as (_ & _ & H).
    destruct l; cbn in *; try discriminate; tauto.
  - destruct H.
Qed.

Lemma thread_inv_keep d ni tb d' ni' tb' (t : thread) :
  thread_inv d ni tb t -> ~ is_winner t -> (d = 1 -> d' = 1) ->
  thread_inv d' ni' tb' t.
Proof.
  unfold thread_inv, is_winner, outermost.
  intros H Hn Hd.
  destruct (stack t) as [|a [|b [|c r]]]; cbn in Hn.
  - tauto.
  - destruct a; cbn in *;
      try (exfalso; apply Hn; eexists; split; [reflexivity|reflexivity]);
      tauto.
  - destruct H as (Hc & _ & _). exfalso. apply Hn. exists b. split; auto.
    destruct b; cbn in *; try discriminate; reflexivity.
  - destruct H.
Qed.

Lemma inv_update (n : nat) (s : state) (i : nat) (t : thread) :
  Inv n s ->
  nth_error (threads s) i = Some t ->
  forall cnt' d' tb' ab' ni' t',
    cnt' = Z.of_nat (count_fetched (set_nth (threads s) i t')) ->
    (d' = 0 \/ d' = 1) ->
    (ni' <= 1)%nat ->
    (d' = 1 -> ni' = 1%nat /\ full tb') ->
    (fetched t = true -> fetched t' = true) ->
    (ni' <> 0%nat \/ d' <> 0 ->
     (inits s <> 0%nat \/ init_done s <> 0) \/ fetched t' = true) ->
    thread_inv d' ni' tb' t' ->
    (init_done s = 1 -> d' = 1) ->
    (d' = init_done s /\ ni' = inits s /\ tb' = table s) \/ is_winner t ->
    (is_winner t' -> is_winner t \/ count_fetched (threads s) = 0%nat) ->
    Inv n (mkState cnt' d' tb' ab' ni' (set_nth (threads s) i t')).
Proof.
  intros HI Ht cnt' d' tb' ab' ni' t' Hcnt Hd Hni Hready Hmono Hstart Hti
         Hdm Hglob Hwin.
  destruct HI as [Il Ic Id Io Ir Is Ith Iw].
  pose proof (count_fetched_set_nth (threads s) i t t' Ht) as Hc.
  constructor; cbn [threads init_cnt init_done table inits].
  - now rewrite length_set_nth.
  - exact Hcnt.
  - exact Hd.
  - exact Hni.
  - exact Hready.
  - intros H. destruct (Hstart H) as [H'|H'].
    + specialize (Is H').
      destruct (fetched t) eqn:Ef.
      * rewrite (Hmono eq_refl) in Hc. cbn in Hc. lia.
      * destruct (fetched t'); cbn in Hc; lia.
    + rewrite H' in Hc. cbn in Hc.
      destruct (fetched t) eqn:Ef; cbn in Hc; [|lia].
      pose proof (count_fetched_pos _ i t Ht Ef). lia.
  - intros j tj Hj.
    destruct (Nat.eq_dec i j) as [<-|Hij].
    + rewrite (nth_error_set_nth_eq _ _ _ _ Ht) in Hj. now injection Hj as <-.
    + rewrite nth_error_set_nth_neq in Hj by exact Hij.
      specialize (Ith j tj Hj).
      destruct Hglob as [(-> & -> & ->)|Hw]; [exact Ith|].
      apply (thread_inv_keep _ _ _ _ _ _ _ Ith); [|exact Hdm].
      intros Hwj. apply Hij. exact (Iw i j t tj Ht Hj Hw Hwj).
  - assert (Hone : forall j tj, i <> j -> nth_error (threads s) j = Some tj ->
                     is_winner t' -> is_winner tj -> False).
    { intros j tj Hij Hj Hw' Hwj.
      destruct (Hwin Hw') as [Hw|Hz].
      - apply Hij. exact (Iw i j t tj Ht Hj Hw Hwj).
      - pose proof (count_fetched_pos _ j tj Hj
                      (winner_fetched _ _ _ _ (Ith j tj Hj) Hwj)). lia. }
    intros a b ta tb0 Ha Hb Hwa Hwb.
    destruct (Nat.eq_dec i a) as [<-|Hia]; destruct (Nat.eq_dec i b) as [<-|Hib];
      try reflexivity.
    + rewrite (nth_error_set_nth_eq _ _ _ _ Ht) in Ha. injection Ha as <-.
      rewrite nth_error_set_nth_neq in Hb by exact Hib.
      exfalso. exact (Hone b tb0 Hib Hb Hwa Hwb).
    + rewrite (nth_error_set_nth_eq _ _ _ _ Ht) in Hb. injection Hb as <-.
      rewrite nth_error_set_nth_neq in Ha by exact Hia.
      exfalso. exact (Hone a ta Hia Ha Hwb Hwa).
    + rewrite nth_error_set_nth_neq in Ha by exact Hia.
      rewrite nth_error_set_nth_neq in Hb by exact Hib.
      exact (Iw a b ta tb0 Ha Hb Hwa Hwb).
Qed.

Lemma count_fetched_same (l : list thread) (i : nat) (t t' : thread) :
  nth_error l i = Some t -> fetched t' = fetched t ->
  count_fetched (set_nth l i t') = count_fetched l.
Proof.
  intros H Hf. pose proof (count_fetched_set_nth l i t t' H) as Hc.
  rewrite Hf in Hc. lia.
Qed.

Lemma wrap_small (z : Z) : 0 <= z < UINT32_MOD -> wrap_u32 z = z.
Proof. intros H. unfold wrap_u32. now apply Z.mod_small. Qed.

Lemma nth_all_symbols (sym : symbol) :
  exists j, (j < 22)%nat /\ nth_error all_symbols j = Some sym.
Proof.
  destruct (In_nth_error _ _ (InterposeFacts.all_symbols_complete sym))
    as [j Hj].
  exists j. split; [|exact Hj].
  change 22%nat with (List.length all_symbols).
  apply nth_error_Some. congruence.
Qed.

Ltac winner_same :=
  unfold is_winner, outermost; cbn [stack goto leave map last];
  try (intros (? & Hq & Hw); first [discriminate Hq
       | injection Hq as <-; discriminate Hw
       | left; eexists; split; [reflexivity|reflexivity]
       | left; eexists; split; [reflexivity|exact Hw] ]);
  try tauto.

Lemma inv_abort (n : nat) (s : state) : Inv n s -> Inv n (abort s).
Proof. intros [? ? ? ? ? ? ? ?]. constructor; assumption. Qed.

Lemma symbol_eqb_refl (a : symbol) : symbol_eqb a a = true.
Proof. now destruct a. Qed.

Ltac keep_globals HI Ht Hcnt Hdone Honce Hready :=
  apply (inv_update _ _ _ _ HI Ht); cbn [goto leave fetched in_init stack];
  [ rewrite (count_fetched_same _ _ _ _ Ht); [exact Hcnt | reflexivity]
  | exact Hdone | exact Honce | exact Hready
  | let H := fresh in intros H; exact H
  | let H := fresh in intros H; left; exact H
  |
  | let H := fresh in intros H; exact H
  | left; repeat split
  | ].

Lemma exec_inv (n : nat) (s s' : state) (i : nat) (a : action) :
  Z.of_nat n < UINT32_MOD ->
  Inv n s -> exec i a s = Some s' -> Inv n s'.
Proof.
  intros Hn HI He. unfold exec in He.
  destruct (aborted s) eqn:Hab; [discriminate|].
  destruct (nth_error (threads s) i) as [t|] eqn:Ht; [|discriminate].
  pose proof (inv_threads n s HI i t Ht) as Hti.
  pose proof (inv_cnt n s HI) as Hcnt.
  pose proof (inv_done n s HI) as Hdone.
  pose proof (inv_once n s HI) as Honce.
  pose proof (inv_ready n s HI) as Hready.
  unfold thread_inv in Hti.
  destruct a as [|o]; destruct (stack t) as [|l rest] eqn:Hst;
    try discriminate.
  - (* entering from application code *)
    injection He as <-.
    keep_globals HI Ht Hcnt Hdone Honce Hready.
    + exact Hti.
    + winner_same.
  - (* entering from inside init *)
    destruct (may_call_out l) eqn:Hout; [|discriminate].
    injection He as <-.
    keep_globals HI Ht Hcnt Hdone Honce Hready.
    + unfold thread_inv. cbn [stack].
      destruct rest as [|l2 [|l3 r]].
      * repeat split; auto.
      * destruct Hti as (_ & [->| ->] & _); discriminate Hout.
      * destruct Hti.
    + unfold is_winner, outermost. rewrite Hst. cbn [stack map].
      intros (x & Hx & Hw). left. exists x. split; [|exact Hw].
      destruct rest; exact Hx.
  - injection He as <-.
    destruct rest as [|l0 [|l1 r]]; [| |destruct Hti].
    + (* a statement of the outermost activation *)
      destruct l; cbn [statement at_line] in *.
      * (* 393 *)
        destruct Hti as (Hi0 & Hf).
        destruct (Z.eqb_spec (init_done s) 0) as [Hz|Hz];
          keep_globals HI Ht Hcnt Hdone Honce Hready;
          try winner_same; unfold thread_inv; cbn [stack at_line goto leave fetched in_init].
        -- split; [exact Hi0|]. destruct (fetched t); [|reflexivity].
           specialize (Hf eq_refl). lia.
        -- split; assumption.
      * (* 396 *)
        destruct Hti as (Hi0 & Hf). rewrite Hi0. cbn [Z.eqb negb].
        keep_globals HI Ht Hcnt Hdone Honce Hready; try winner_same.
        unfold thread_inv; cbn [stack at_line goto leave fetched in_init]. split; assumption.
      * (* 400 *)
        destruct Hti as (Hi0 & Hf).
        pose proof (count_fetched_set_nth (threads s) i t
                      (goto (mkThread (stack t) (in_init t) true) []
                         (if init_cnt s =? 0 then L401 else L407)) Ht) as Hc.
        rewrite Hf in Hc. cbn [goto fetched bit] in Hc.
        pose proof (count_fetched_lt _ i t Ht Hf) as Hlt.
        rewrite (inv_length n s HI) in Hlt.
        apply (inv_update _ _ _ _ HI Ht); cbn [goto fetched in_init stack];
          auto.
        -- rewrite wrap_small; lia.
        -- unfold thread_inv; cbn [stack goto].
           destruct (Z.eqb_spec (init_cnt s) 0) as [Hz|Hz];
             cbn [at_line goto fetched in_init].
           ++ assert (Hno : ~ (inits s <> 0%nat \/ init_done s <> 0)).
              { intros H. pose proof (inv_started n s HI H). lia. }
              repeat split; auto; [lia|]. destruct Hdone; [assumption|].
              exfalso. apply Hno. right. lia.
           ++ split; auto.
        -- unfold is_winner, outermost; cbn [stack goto map last].
           intros (x & Hx & Hw). right.
           destruct (Z.eqb_spec (init_cnt s) 0) as [Hz|Hz]; [lia|].
           injection Hx as <-. discriminate Hw.
      * (* 401 *)
        destruct Hti as (Hi0 & Hf & Hni & Hd0).
        apply (inv_update _ _ _ _ HI Ht); cbn [goto fetched in_init stack];
          auto.
        -- rewrite (count_fetched_same _ _ _ _ Ht); [exact Hcnt|reflexivity].
        -- unfold thread_inv; cbn [stack at_line goto leave fetched in_init]. auto.
        -- intros _. left. unfold is_winner, outermost. rewrite Hst.
           eexists; split; reflexivity.
      * (* 402 *)
        destruct Hti as (Hi0 & Hf & Hni & Hd0).
        apply (inv_update _ _ _ _ HI Ht); cbn [goto fetched in_init stack];
          auto.
        -- rewrite (count_fetched_same _ _ _ _ Ht); [exact Hcnt|reflexivity].
        -- lia.
        -- intros H. rewrite Hd0 in H. discriminate H.
        -- unfold thread_inv; cbn [stack at_line goto leave fetched in_init].
           rewrite Hni. repeat split; auto. intros j sym Hj. lia.
        -- right. unfold is_winner, outermost. rewrite Hst.
           eexists; split; reflexivity.
        -- intros _. left. unfold is_winner, outermost. rewrite Hst.
           eexists; split; reflexivity.
      * (* in init: an assignment, or the call of tas_init *)
        destruct Hti as (Hi1 & Hf & Hni & Hd0 & Htb).
        assert (Hw : is_winner t).
        { unfold is_winner, outermost. rewrite Hst.
          eexists; split; reflexivity. }
        destruct (nth_error all_symbols k) as [sym|] eqn:Hk.
        -- destruct (Z.eqb_spec o 0) as [Ho|Ho]; [now apply inv_abort|].
           apply (inv_update _ _ _ _ HI Ht);
             cbn [goto fetched in_init stack]; auto.
           ++ rewrite (count_fetched_same _ _ _ _ Ht);
                [exact Hcnt|reflexivity].
           ++ intros H. rewrite Hd0 in H. discriminate H.
           ++ unfold thread_inv;
                cbn [stack at_line goto leave fetched in_init].
              repeat split; auto.
              intros j sym' Hj Hsym'. unfold upd.
              destruct (symbol_eqb sym sym') eqn:Heq; [exact Ho|].
              apply (Htb j sym'); [|exact Hsym'].
              destruct (Nat.eq_dec j k) as [->|Hjk]; [|lia].
              rewrite Hk in Hsym'. injection Hsym' as <-.
              rewrite symbol_eqb_refl in Heq. discriminate Heq.
        -- keep_globals HI Ht Hcnt Hdone Honce Hready; [|auto].
           unfold thread_inv; cbn [stack at_line goto leave fetched in_init].
           repeat split; auto.
           intros sym. destruct (nth_all_symbols sym) as (j & Hj & Hsym).
           apply (Htb j sym); [|exact Hsym].
           apply nth_error_None in Hk. cbn in Hk. lia.
      * (* in tas_init: it returns *)
        assert (Hw : is_winner t).
        { unfold is_winner, outermost. rewrite Hst.
          eexists; split; reflexivity. }
        destruct (o =? 0); cbn [negb]; [|now apply inv_abort].
        keep_globals HI Ht Hcnt Hdone Honce Hready; [|auto].
        unfold thread_inv; cbn [stack at_line goto leave fetched in_init].
        exact Hti.
      * (* 403 *)
        assert (Hw : is_winner t).
        { unfold is_winner, outermost. rewrite Hst.
          eexists; split; reflexivity. }
        destruct Hti as (Hi1 & Hf & Hni & Hd0 & Htb).
        apply (inv_update _ _ _ _ HI Ht); cbn [goto fetched in_init stack];
          auto.
        -- rewrite (count_fetched_same _ _ _ _ Ht); [exact Hcnt|reflexivity].
        -- unfold thread_inv; cbn [stack at_line goto leave fetched in_init].
           auto.
      * (* 404 *)
        assert (Hw : is_winner t).
        { unfold is_winner, outermost. rewrite Hst.
          eexists; split; reflexivity. }
        keep_globals HI Ht Hcnt Hdone Honce Hready; [|auto].
        unfold thread_inv; cbn [stack at_line goto leave fetched in_init].
        exact Hti.
      * (* 405 *)
        assert (Hw : is_winner t).
        { unfold is_winner, outermost. rewrite Hst.
          eexists; split; reflexivity. }
        destruct Hti as (Hi0 & Hf & Hni & Hd0 & Htb).
        apply (inv_update _ _ _ _ HI Ht); cbn [goto leave fetched in_init stack];
          auto.
        -- rewrite (count_fetched_same _ _ _ _ Ht); [exact Hcnt|reflexivity].
        -- unfold thread_inv; cbn [stack at_line goto leave fetched in_init].
           auto.
      * (* 407 *)
        destruct (Z.eqb_spec (init_done s) 0) as [Hz|Hz];
          keep_globals HI Ht Hcnt Hdone Honce Hready;
          try winner_same;
          unfold thread_inv; cbn [stack at_line goto leave fetched in_init].
        -- exact Hti.
        -- destruct Hti. repeat split; auto. lia.
      * (* 408 *)
        keep_globals HI Ht Hcnt Hdone Honce Hready; try winner_same.
        unfold thread_inv; cbn [stack at_line goto leave fetched in_init].
        exact Hti.
      * (* 410 *)
        keep_globals HI Ht Hcnt Hdone Honce Hready; try winner_same.
        unfold thread_inv; cbn [stack at_line goto leave fetched in_init].
        destruct Hti as (? & ? & ?). auto.
    + (* a statement of a call made from inside init *)
      destruct Hti as (Hout & Hl & Hl0).
      assert (Hw : is_winner t).
      { unfold is_winner, outermost. rewrite Hst. exists l0. split.
        - reflexivity.
        - destruct l0; try discriminate Hout; reflexivity. }
      assert (Hi1 : in_init t = 1).
      { destruct l0; try discriminate Hout; cbn in Hl0; tauto. }
      assert (Hw' : forall l', is_winner (goto t [l0] l')).
      { intros l'. exists l0. split; [reflexivity|].
        destruct l0; try discriminate Hout; reflexivity. }
      assert (Hw'' : is_winner (leave t [l0])).
      { exists l0. split; [reflexivity|].
        destruct l0; try discriminate Hout; reflexivity. }
      destruct Hl as [-> | ->]; cbn [statement].
      * destruct (init_done s =? 0);
          keep_globals HI Ht Hcnt Hdone Honce Hready; auto;
          unfold thread_inv; cbn [stack at_line goto leave fetched in_init].
        all: repeat split; auto; exact Hl0.
      * rewrite Hi1. cbn [Z.eqb negb].
        keep_globals HI Ht Hcnt Hdone Honce Hready; auto.
Qed.

Lemma inv_initial (n : nat) : Inv n (initial n).
Proof.
  assert (Hc : count_fetched (repeat idle n) = 0%nat).
  { unfold count_fetched. induction n; cbn; auto. }
  assert (Hth : forall i t, nth_error (repeat idle n) i = Some t -> t = idle).
  { intros i t H. apply nth_error_In in H. now apply repeat_spec in H. }
  constructor; cbn [initial threads init_cnt init_done table inits].
  - apply repeat_length.
  - now rewrite Hc.
  - now left.
  - lia.
  - discriminate.
  - intros [H|H]; congruence.
  - intros i t H. rewrite (Hth i t H). cbn. split; [reflexivity|discriminate].
  - intros i j ti tj Hi _ (l & Hl & _). rewrite (Hth i ti Hi) in Hl.
    discriminate Hl.
Qed.

Lemma reachable_inv (n : nat) (s : state) :
  Z.of_nat n < UINT32_MOD -> reachable n s -> Inv n s.
Proof.
  intros Hn H. induction H as [|s s' _ IH (i & a & He)].
  - apply inv_initial.
  - exact (exec_inv n s s' i a Hn IH He).
Qed.

(** ** Steps *)

Lemma exec_done_monotone (s s' : state) (i : nat) (a : action) :
  exec i a s = Some s' -> init_done s = 1 -> init_done s' = 1.
Proof.
  unfold exec. intros He Hd.
  destruct (aborted s); [discriminate|].
  destruct (nth_error (threads s) i) as [t|]; [|discriminate].
  destruct a as [|o]; destruct (stack t) as [|l rest]; try discriminate.
  - now injection He as <-.
  - destruct (may_call_out l); [|discriminate]. now injection He as <-.
  - injection He as <-.
    destruct l; cbn [statement];
      repeat match goal with
             | |- context [if ?c then _ else _] => destruct c
             | |- context [match ?c with Some _ => _ | None => _ end] =>
                 destruct c
             end; cbn; auto.
Qed.

(** The thread [i] after its own step, when the process did not abort. *)
Lemma exec_own_thread (s s' : state) (i : nat) (t : thread) (l : pc)
    (rest : list pc) (o : Z) :
  nth_error (threads s) i = Some t ->
  stack t = l :: rest ->
  exec i (Go o) s = Some s' ->
  aborted s' = false ->
  exists t', nth_error (threads s') i = Some t' /\
    stack t' =
      match l with
      | L393 => if init_done s =? 0 then L396 :: rest else rest
      | L396 => if negb (in_init t =? 0) then rest else L400 :: rest
      | L400 => (if init_cnt s =? 0 then L401 else L407) :: rest
      | L401 => L402 :: rest
      | L402 => InInit 0 :: rest
      | InInit k =>
          match nth_error all_symbols k with
          | Some _ => InInit (S k) :: rest
          | None => InTasInit :: rest
          end
      | InTasInit => L403 :: rest
      | L403 => L404 :: rest
      | L404 => L405 :: rest
      | L405 => rest
      | L407 => (if init_done s =? 0 then L408 else L410) :: rest
      | L408 => L407 :: rest
      | L410 => rest
      end.
Proof.
  unfold exec. intros Ht Hst He Hab.
  destruct (aborted s) eqn:Hab0; [discriminate|].
  rewrite Ht, Hst in He. injection He as <-.
  destruct l; cbn [statement] in *;
    repeat match goal with
           | |- context [if ?c then _ else _] => destruct c eqn:?
           | |- context [match nth_error all_symbols ?k with _ => _ end] =>
               destruct (nth_error all_symbols k) eqn:?
           end;
    cbn [abort aborted] in Hab; try congruence;
    cbn [threads set_thread];
    rewrite (nth_error_set_nth_eq _ _ _ _ Ht);
    eexists; (split; [reflexivity|]); reflexivity.
Qed.

Lemma returns_when_ready (n : nat) (s s' : state) (i : nat) (a : action) :
  Inv n s -> exec i a s = Some s' -> returns_in i s s' -> init_done s' = 1.
Proof.
  intros HI He (t & t' & l & Ht & Hst & Ht' & Hst').
  pose proof (inv_threads n s HI i t Ht) as Hti.
  pose proof (inv_done n s HI) as Hdone.
  unfold thread_inv in Hti. rewrite Hst in Hti.
  unfold exec in He.
  destruct (aborted s); [discriminate|].
  rewrite Ht, Hst in He.
  destruct a as [|o].
  - destruct (may_call_out l); [|discriminate]. injection He as <-.
    cbn [threads set_thread] in Ht'.
    rewrite (nth_error_set_nth_eq _ _ _ _ Ht) in Ht'. injection Ht' as <-.
    discriminate Hst'.
  - injection He as <-.
    destruct l; cbn [statement at_line] in *;
      repeat match type of Ht' with
             | context [if ?c then _ else _] => destruct c eqn:?
             | context [match nth_error all_symbols ?k with _ => _ end] =>
                 destruct (nth_error all_symbols k) eqn:?
             end;
      cbn [threads set_thread abort] in Ht';
      try (rewrite Ht in Ht'; injection Ht' as <-; congruence);
      rewrite (nth_error_set_nth_eq _ _ _ _ Ht) in Ht'; injection Ht' as <-;
      try discriminate Hst'; cbn [init_done set_thread].
    + match goal with H : (init_done s =? 0) = false |- _ =>
        apply Z.eqb_neq in H end. lia.
    + destruct Hti as (Hi0 & _). rewrite Hi0 in *. discriminate.
    + reflexivity.
    + tauto.
Qed.

Lemma step_keeps_table (n : nat) (s s' : state) :
  Inv n s -> init_done s = 1 -> step s s' ->
  forall sym, table s' sym = table s sym.
Proof.
  intros HI Hd (i & a & He) sym. unfold exec in He.
  destruct (aborted s); [discriminate|].
  destruct (nth_error (threads s) i) as [t|] eqn:Ht; [|discriminate].
  pose proof (inv_threads n s HI i t Ht) as Hti. unfold thread_inv in Hti.
  destruct a as [|o]; destruct (stack t) as [|l rest]; try discriminate.
  - now injection He as <-.
  - destruct (may_call_out l); [|discriminate]. now injection He as <-.
  - injection He as <-.
    destruct l; cbn [statement];
      repeat match goal with
             | |- context [if ?c then _ else _] => destruct c
             | |- context [match nth_error all_symbols ?k with _ => _ end] =>
                 destruct (nth_error all_symbols k)
             end; try reflexivity.
    exfalso.
    destruct rest as [|l0 [|l1 r]].
    + cbn in Hti. lia.
    + destruct Hti as (_ & [H|H] & _); discriminate H.
    + exact Hti.
Qed.

Lemma run_reachable (n : nat) (sched : list (nat * action)) :
  forall s s', reachable n s -> run sched s = Some s' -> reachable n s'.
Proof.
  induction sched as [|[i a] sched IH]; intros s s' Hr H; cbn in H.
  - now injection H as <-.
  - destruct (exec i a s) as [s1|] eqn:He; [|discriminate].
    apply (IH s1 s'); [|exact H].
    apply (reach_step n s s1 Hr). now exists i, a.
Qed.

(** X13. Among the threads that go through [ensure_init], in a process
    of fewer than [2^32] threads and whatever the interleaving: [init] is
    called at most once, and once when [init_done] is set; at most one
    thread is on the path from line 401 to line 405, and a thread gets
    there from line 400 exactly when it read [0] from [init_cnt]; a thread that read another value goes to the
    wait loop and leaves it only on reading [init_done <> 0]; no thread
    returns from its outermost [ensure_init] before [init_done] is [1];
    and [init_done], once [1], stays [1]. *)
Theorem init_runs_once (n : nat) (s : state) :
  Z.of_nat n < UINT32_MOD ->
  reachable n s ->
  (inits s <= 1)%nat /\
  (init_done s = 1 -> inits s = 1%nat) /\
  (forall i j ti tj,
     nth_error (threads s) i = Some ti -> nth_error (threads s) j = Some tj ->
     is_winner ti -> is_winner tj -> i = j) /\
  (forall i t o s',
     nth_error (threads s) i = Some t -> stack t = [L400] ->
     exec i (Go o) s = Some s' ->
     exists t', nth_error (threads s') i = Some t' /\
                stack t' = [if init_cnt s =? 0 then L401 else L407]) /\
  (forall i t o s',
     nth_error (threads s) i = Some t -> stack t = [L407] ->
     exec i (Go o) s = Some s' ->
     exists t', nth_error (threads s') i = Some t' /\
                stack t' = [if init_done s =? 0 then L408 else L410]) /\
  (forall i a s',
     exec i a s = Some s' -> returns_in i s s' -> init_done s' = 1) /\
  (forall s', step s s' -> init_done s = 1 -> init_done s' = 1).
Proof.
  intros Hn Hr.
  pose proof (reachable_inv n s Hn Hr) as HI.
  split; [exact (inv_once n s HI)|].
  split; [intros H; exact (proj1 (inv_ready n s HI H))|].
  split; [exact (inv_winner n s HI)|].
  split; [|split; [|split]].
  - intros i t o s' Ht Hst He.
    assert (Hab : aborted s' = false).
    { unfold exec in He. destruct (aborted s) eqn:Hab; [discriminate|].
      rewrite Ht, Hst in He. injection He as <-. exact Hab. }
    exact (exec_own_thread s s' i t L400 [] o Ht Hst He Hab).
  - intros i t o s' Ht Hst He.
    assert (Hab : aborted s' = false).
    { unfold exec in He. destruct (aborted s) eqn:Hab; [discriminate|].
      rewrite Ht, Hst in He. injection He as <-. cbn.
      destruct (init_done s =? 0); exact Hab. }
    exact (exec_own_thread s s' i t L407 [] o Ht Hst He Hab).
  - intros i a s' He Hret. exact (returns_when_ready n s s' i a HI He Hret).
  - intros s' (i & a & He). exact (exec_done_monotone s s' i a He).
Qed.

End GateFacts.

(** * More on the interleaving model *)

Module GateMore.
Import Gate GateInv GateFacts.

Lemma in_init_is_winner d ni tb (t : thread) :
  thread_inv d ni tb t -> in_init t <> 0 -> is_winner t.
Proof.
  unfold thread_inv, is_winner, outermost. intros H Hi.
  destruct (stack t) as [|a [|b [|c r]]]; cbn.
  - tauto.
  - exists a. split; [reflexivity|].
    destruct a; cbn in H; try reflexivity; tauto.
  - destruct H as (Hc & _ & _). exists b. split; [reflexivity|].
    destruct b; try discriminate Hc; reflexivity.
  - destruct H.
Qed.

(** X8. A thread whose [in_init] is set never waits for [init_done] and never
    touches the counter: none of its activations of [ensure_init] is at
    the [fetch_and_add] or in the wait loop, and it has at most two
    activations, the inner one (a call made from inside [init]) at one of
    the two tests at the top of [ensure_init]. *)
Theorem in_init_never_waits (n : nat) (s : state) (i : nat) (t : thread) :
  Z.of_nat n < UINT32_MOD ->
  reachable n s ->
  nth_error (threads s) i = Some t ->
  in_init t <> 0 ->
  (List.length (stack t) <= 2)%nat /\
  (forall l, In l (stack t) ->
             l <> L400 /\ l <> L407 /\ l <> L408 /\ l <> L410) /\
  (forall l l0 rest, stack t = l :: l0 :: rest -> l = L393 \/ l = L396).
Proof.
  intros Hn Hr Ht Hi.
  pose proof (inv_threads n s (reachable_inv n s Hn Hr) i t Ht) as H.
  unfold thread_inv in H.
  destruct (stack t) as [|a [|b [|c r]]]; cbn [List.length In].
  - tauto.
  - split; [lia|]. split; [|intros ? ? ? Heq; discriminate Heq].
    intros l [<-|[]].
    destruct a; cbn in H; repeat split; try discriminate; tauto.
  - destruct H as (Hc & Hab & H). split; [lia|]. split.
    + intros l [<-|[<-|[]]].
      * destruct Hab as [-> | ->]; repeat split; discriminate.
      * destruct b; try discriminate Hc; repeat split; discriminate.
    + intros l l0 rest Heq. injection Heq as <- _ _. exact Hab.
  - destruct H.
Qed.

(** X9. [in_init] is set in at most one thread at a time. *)
Theorem in_init_in_one_thread (n : nat) (s : state) (i j : nat)
    (ti tj : thread) :
  Z.of_nat n < UINT32_MOD ->
  reachable n s ->
  nth_error (threads s) i = Some ti ->
  nth_error (threads s) j = Some tj ->
  in_init ti <> 0 -> in_init tj <> 0 ->
  i = j.
Proof.
  intros Hn Hr Hi Hj Hii Hij.
  pose proof (reachable_inv n s Hn Hr) as HI.
  apply (inv_winner n s HI i j ti tj Hi Hj).
  - exact (in_init_is_winner _ _ _ _ (inv_threads n s HI i ti Hi) Hii).
  - exact (in_init_is_winner _ _ _ _ (inv_threads n s HI j tj Hj) Hij).
Qed.

(** X10. [init_cnt] counts the threads that have passed line 400, each once:
    it never exceeds the number of threads, so with fewer than [2^32]
    threads it never wraps, and it is not [0] again once [init] has been
    called. *)
Theorem counter_never_wraps (n : nat) (s : state) :
  Z.of_nat n < UINT32_MOD ->
  reachable n s ->
  init_cnt s = Z.of_nat (count_fetched (threads s)) /\
  0 <= init_cnt s <= Z.of_nat n /\
  (inits s <> 0%nat \/ init_done s <> 0 -> 0 < init_cnt s).
Proof.
  intros Hn Hr.
  pose proof (reachable_inv n s Hn Hr) as HI.
  pose proof (inv_cnt n s HI) as Hc.
  pose proof (inv_length n s HI) as Hl.
  pose proof (filter_length_le fetched (threads s)) as Hle.
  fold (count_fetched (threads s)) in Hle.
  split; [exact Hc|]. split; [lia|].
  intros H. pose proof (inv_started n s HI H). lia.
Qed.

Lemma exec_abort_before_ready (n : nat) (s s' : state) (i : nat)
    (a : action) :
  Inv n s -> exec i a s = Some s' -> aborted s' = true -> init_done s' = 0.
Proof.
  intros HI He Hab. unfold exec in He.
  destruct (aborted s) eqn:Hab0; [discriminate|].
  destruct (nth_error (threads s) i) as [t|] eqn:Ht; [|discriminate].
  pose proof (inv_threads n s HI i t Ht) as Hti. unfold thread_inv in Hti.
  destruct a as [|o]; destruct (stack t) as [|l rest]; try discriminate.
  - injection He as <-. cbn in Hab. congruence.
  - destruct (may_call_out l); [|discriminate]. injection He as <-.
    cbn in Hab. congruence.
  - injection He as <-.
    destruct l; cbn [statement] in *;
      repeat match type of Hab with
             | context [if ?c then _ else _] => destruct c
             | context [match nth_error all_symbols ?k with _ => _ end] =>
                 destruct (nth_error all_symbols k)
             end;
      cbn [aborted set_thread abort] in Hab; try congruence;
      cbn [init_done abort];
      (destruct rest as [|l0 [|l1 r]];
       [ cbn in Hti; tauto
       | destruct Hti as (_ & [H|H] & _); discriminate H
       | destruct Hti ]).
Qed.

(** X11. The process aborts only before [init_done] is set: in no reachable
    state are [aborted] and [init_done] both set. *)
Theorem abort_only_before_ready (n : nat) (s : state) :
  Z.of_nat n < UINT32_MOD ->
  reachable n s ->
  aborted s = true ->
  init_done s = 0.
Proof.
  intros Hn Hr. destruct Hr as [|s0 s1 Hr0 (i & a & He)].
  - discriminate.
  - exact (exec_abort_before_ready n s0 s1 i a
             (reachable_inv n s0 Hn Hr0) He).
Qed.

(** ** Initialisation can always complete *)

Lemma exec_go (s : state) (i : nat) (t : thread) (l : pc) (rest : list pc)
    (o : Z) :
  aborted s = false ->
  nth_error (threads s) i = Some t ->
  stack t = l :: rest ->
  exec i (Go o) s = Some (statement s i t l rest o).
Proof. intros Ha Ht Hs. unfold exec. now rewrite Ha, Ht, Hs. Qed.

Lemma completes_step (s s1 : state) (i : nat) (a : action) :
  exec i a s = Some s1 -> completes s1 -> completes s.
Proof.
  intros He (sched & s' & Hr & Hd & Ha).
  exists ((i, a) :: sched), s'. cbn. rewrite He. auto.
Qed.

Ltac one_step i o Ha Ht Hs :=
  eapply (completes_step _ _ i (Go o));
  [ apply (exec_go _ i _ _ _ o Ha Ht Hs) | cbn [statement] ].

Ltac next_thread Ht :=
  cbn [threads set_thread]; apply (nth_error_set_nth_eq _ _ _ _ Ht).

Lemma drive_L405 (s : state) (i : nat) (t : thread) :
  aborted s = false -> nth_error (threads s) i = Some t ->
  stack t = [L405] -> completes s.
Proof.
  intros Ha Ht Hs. one_step i 0 Ha Ht Hs.
  eexists [], _. cbn. auto.
Qed.

Lemma drive_L404 (s : state) (i : nat) (t : thread) :
  aborted s = false -> nth_error (threads s) i = Some t ->
  stack t = [L404] -> completes s.
Proof.
  intros Ha Ht Hs. one_step i 0 Ha Ht Hs.
  eapply drive_L405; [exact Ha | next_thread Ht | reflexivity].
Qed.

Lemma drive_L403 (s : state) (i : nat) (t : thread) :
  aborted s = false -> nth_error (threads s) i = Some t ->
  stack t = [L403] -> completes s.
Proof.
  intros Ha Ht Hs. one_step i 0 Ha Ht Hs.
  eapply drive_L404; [exact Ha | next_thread Ht | reflexivity].
Qed.

Lemma drive_InTasInit (s : state) (i : nat) (t : thread) :
  aborted s = false -> nth_error (threads s) i = Some t ->
  stack t = [InTasInit] -> completes s.
Proof.
  intros Ha Ht Hs. one_step i 0 Ha Ht Hs. cbn [Z.eqb negb].
  eapply drive_L403; [exact Ha | next_thread Ht | reflexivity].
Qed.

Lemma drive_InInit (m : nat) :
  forall (k : nat) (s : state) (i : nat) (t : thread),
    (22 - k <= m)%nat ->
    aborted s = false -> nth_error (threads s) i = Some t ->
    stack t = [InInit k] -> completes s.
Proof.
  induction m as [|m IH]; intros k s i t Hm Ha Ht Hs.
  - one_step i 4096 Ha Ht Hs.
    assert (Hk : nth_error all_symbols k = None).
    { apply nth_error_None. cbn. lia. }
    rewrite Hk.
    eapply drive_InTasInit; [exact Ha | next_thread Ht | reflexivity].
  - one_step i 4096 Ha Ht Hs.
    destruct (nth_error all_symbols k) as [sym|] eqn:Hk.
    + cbn [Z.eqb].
      eapply (IH (S k) _ i (goto t [] (InInit (S k))));
        [lia | exact Ha | | reflexivity].
      cbn [threads]. apply (nth_error_set_nth_eq _ _ _ _ Ht).
    + eapply drive_InTasInit; [exact Ha | next_thread Ht | reflexivity].
Qed.

Lemma drive_L402 (s : state) (i : nat) (t : thread) :
  aborted s = false -> nth_error (threads s) i = Some t ->
  stack t = [L402] -> completes s.
Proof.
  intros Ha Ht Hs. one_step i 0 Ha Ht Hs.
  eapply (drive_InInit 22 0 _ i (goto t [] (InInit 0)));
    [lia | exact Ha | | reflexivity].
  cbn [threads]. apply (nth_error_set_nth_eq _ _ _ _ Ht).
Qed.

Lemma drive_L401 (s : state) (i : nat) (t : thread) :
  aborted s = false -> nth_error (threads s) i = Some t ->
  stack t = [L401] -> completes s.
Proof.
  intros Ha Ht Hs. one_step i 0 Ha Ht Hs.
  eapply drive_L402; [exact Ha | next_thread Ht | reflexivity].
Qed.

Lemma drive_winner (s : state) (i : nat) (t : thread) (l : pc) :
  aborted s = false -> nth_error (threads s) i = Some t ->
  stack t = [l] -> winning l = true -> completes s.
Proof.
  intros Ha Ht Hs Hw. destruct l; try discriminate Hw.
  - eapply drive_L401; eassumption.
  - eapply drive_L402; eassumption.
  - eapply (drive_InInit 22 k); [lia | eassumption ..].
  - eapply drive_InTasInit; eassumption.
  - eapply drive_L403; eassumption.
  - eapply drive_L404; eassumption.
  - eapply drive_L405; eassumption.
Qed.

Lemma drive_nested (s : state) (i : nat) (t : thread) (l l0 : pc) :
  aborted s = false -> nth_error (threads s) i = Some t ->
  stack t = [l; l0] -> l = L393 \/ l = L396 -> in_init t <> 0 ->
  winning l0 = true -> completes s.
Proof.
  intros Ha Ht Hs Hl Hi Hw.
  assert (H396 : forall s1 t1,
             aborted s1 = false -> nth_error (threads s1) i = Some t1 ->
             stack t1 = [L396; l0] -> in_init t1 <> 0 -> completes s1).
  { intros s1 t1 Ha1 Ht1 Hs1 Hi1. one_step i 0 Ha1 Ht1 Hs1.
    apply Z.eqb_neq in Hi1. rewrite Hi1. cbn [negb].
    eapply (drive_winner _ i (leave t1 [l0]) l0);
      [exact Ha1 | next_thread Ht1 | reflexivity | exact Hw]. }
  destruct Hl as [-> | ->].
  - one_step i 0 Ha Ht Hs. destruct (init_done s =? 0).
    + eapply (H396 _ (goto t [l0] L396));
        [exact Ha | next_thread Ht | reflexivity | exact Hi].
    + eapply (drive_winner _ i (leave t [l0]) l0);
        [exact Ha | next_thread Ht | reflexivity | exact Hw].
  - eapply H396; eassumption.
Qed.

Lemma drive_L400 (s : state) (i : nat) (t : thread) :
  aborted s = false -> nth_error (threads s) i = Some t ->
  stack t = [L400] -> init_cnt s = 0 -> completes s.
Proof.
  intros Ha Ht Hs Hc. one_step i 0 Ha Ht Hs. rewrite Hc. cbn [Z.eqb].
  eapply (drive_L401 _ i
            (goto (mkThread (stack t) (in_init t) true) [] L401));
    [exact Ha | | reflexivity].
  cbn [threads]. apply (nth_error_set_nth_eq _ _ _ _ Ht).
Qed.

Lemma drive_L396 (s : state) (i : nat) (t : thread) :
  aborted s = false -> nth_error (threads s) i = Some t ->
  stack t = [L396] -> in_init t = 0 -> init_cnt s = 0 -> completes s.
Proof.
  intros Ha Ht Hs Hi Hc. one_step i 0 Ha Ht Hs. rewrite Hi.
  cbn [Z.eqb negb].
  eapply (drive_L400 _ i (goto t [] L400));
    [exact Ha | next_thread Ht | reflexivity | exact Hc].
Qed.

Lemma drive_L393 (s : state) (i : nat) (t : thread) :
  aborted s = false -> nth_error (threads s) i = Some t ->
  stack t = [L393] -> in_init t = 0 -> init_cnt s = 0 ->
  init_done s = 0 -> completes s.
Proof.
  intros Ha Ht Hs Hi Hc Hd. one_step i 0 Ha Ht Hs. rewrite Hd.
  cbn [Z.eqb].
  eapply (drive_L396 _ i (goto t [] L396));
    [exact Ha | next_thread Ht | reflexivity | exact Hi | exact Hc].
Qed.

Lemma drive_idle (s : state) (i : nat) (t : thread) :
  aborted s = false -> nth_error (threads s) i = Some t ->
  stack t = [] -> in_init t = 0 -> init_cnt s = 0 ->
  init_done s = 0 -> completes s.
Proof.
  intros Ha Ht Hs Hi Hc Hd.
  eapply (completes_step _ _ i Enter).
  - unfold exec. rewrite Ha, Ht, Hs. reflexivity.
  - eapply (drive_L393 _ i (goto t [] L393));
      [exact Ha | next_thread Ht | reflexivity | exact Hi | exact Hc
      | exact Hd].
Qed.

Lemma exec_other_thread (s s' : state) (i j : nat) (a : action) :
  exec i a s = Some s' -> j <> i ->
  nth_error (threads s') j = nth_error (threads s) j.
Proof.
  unfold exec. intros He Hj.
  destruct (aborted s); [discriminate|].
  destruct (nth_error (threads s) i) as [t|]; [|discriminate].
  destruct a as [|o]; destruct (stack t) as [|l rest]; try discriminate.
  - injection He as <-. cbn. now apply nth_error_set_nth_neq.
  - destruct (may_call_out l); [|discriminate]. injection He as <-.
    cbn. now apply nth_error_set_nth_neq.
  - injection He as <-.
    destruct l; cbn [statement];
      repeat match goal with
             | |- context [if ?c then _ else _] => destruct c
             | |- context [match nth_error all_symbols ?k with _ => _ end] =>
                 destruct (nth_error all_symbols k)
             end;
      cbn [threads set_thread abort];
      first [reflexivity | now apply nth_error_set_nth_neq].
Qed.

Lemma winner_of_stack (t : thread) (l : pc) (rest : list pc) :
  stack t = l :: rest ->
  match rest with
  | [] => winning l = true
  | [l0] => winning l0 = true
  | _ => False
  end ->
  is_winner t.
Proof.
  unfold is_winner, outermost. intros -> H.
  destruct rest as [|l0 [|l1 r]]; [| |destruct H]; eexists;
    (split; [reflexivity|exact H]).
Qed.

Lemma exec_winner_stays (n : nat) (s s' : state) (i : nat) (a : action)
    (t : thread) :
  Inv n s -> exec i a s = Some s' ->
  nth_error (threads s) i = Some t -> is_winner t ->
  init_done s' = 1 \/
  exists t', nth_error (threads s') i = Some t' /\ is_winner t'.
Proof.
  intros HI He Ht Hw.
  pose proof (inv_threads n s HI i t Ht) as Hti. unfold thread_inv in Hti.
  unfold exec in He.
  destruct (aborted s); [discriminate|]. rewrite Ht in He.
  destruct Hw as (lw & Hlw & Hww). unfold outermost in Hlw.
  destruct (stack t) as [|l [|l0 [|l1 r]]] eqn:Hst; cbn in Hlw;
    try discriminate; try contradiction; injection Hlw as ->.
  - (* one activation, on the winner's path *)
    destruct a as [|o].
    + destruct (may_call_out lw); [|discriminate]. injection He as <-.
      right. eexists. split; [next_thread Ht|].
      eapply winner_of_stack; [reflexivity|exact Hww].
    + injection He as <-.
      destruct lw; try discriminate Hww; cbn [statement];
        repeat match goal with
               | |- context [if ?c then _ else _] => destruct c
               | |- context [match nth_error all_symbols ?k with _ => _ end]
                 => destruct (nth_error all_symbols k)
               end;
        cbn [threads set_thread abort init_done];
        first
          [ now left
          | right; exists t; split; [exact Ht|];
            eapply winner_of_stack; [exact Hst|reflexivity]
          | right; eexists; split;
            [apply (nth_error_set_nth_eq _ _ _ _ Ht)|];
            eapply winner_of_stack; reflexivity ].
  - (* a call from inside init *)
    destruct Hti as (Hout & Hl & _).
    destruct a as [|o].
    + destruct Hl as [-> | ->]; discriminate He.
    + injection He as <-.
      destruct Hl as [-> | ->]; cbn [statement];
        repeat match goal with
               | |- context [if ?c then _ else _] => destruct c
               end;
        right; eexists; (split; [next_thread Ht|]);
        eapply winner_of_stack; try reflexivity; exact Hww.
Qed.

Lemma exec_first_fetch (n : nat) (s s' : state) (i : nat) (a : action) :
  Inv n s -> exec i a s = Some s' ->
  count_fetched (threads s) = 0%nat ->
  (0 < count_fetched (threads s'))%nat ->
  exists t', nth_error (threads s') i = Some t' /\ is_winner t'.
Proof.
  intros HI He Hz Hpos.
  pose proof (inv_cnt n s HI) as Hc. rewrite Hz in Hc. cbn in Hc.
  unfold exec in He.
  destruct (aborted s); [discriminate|].
  destruct (nth_error (threads s) i) as [t|] eqn:Ht; [|discriminate].
  pose proof (inv_threads n s HI i t Ht) as Hti. unfold thread_inv in Hti.
  assert (Hsame : forall t', fetched t' = fetched t ->
            (0 < count_fetched (set_nth (threads s) i t'))%nat -> False).
  { intros t' Hf H. rewrite (count_fetched_same _ _ _ _ Ht Hf) in H. lia. }
  destruct a as [|o]; destruct (stack t) as [|l rest] eqn:Hst;
    try discriminate.
  - injection He as <-. cbn [threads set_thread] in Hpos.
    exfalso. eapply Hsame; [|exact Hpos]. reflexivity.
  - destruct (may_call_out l); [|discriminate]. injection He as <-.
    cbn [threads set_thread] in Hpos.
    exfalso. eapply Hsame; [|exact Hpos]. reflexivity.
  - injection He as <-.
    destruct l; cbn [statement] in *;
      repeat match type of Hpos with
             | context [if ?c then _ else _] => destruct c eqn:?
             | context [match nth_error all_symbols ?k with _ => _ end] =>
                 destruct (nth_error all_symbols k)
             end;
      cbn [threads set_thread abort] in Hpos;
      try (exfalso; lia);
      try (exfalso; eapply Hsame; [|exact Hpos]; reflexivity).
    (* what is left is line 400 with the counter at 0 *)
    cbn [threads]. eexists. split; [next_thread Ht|].
    destruct rest as [|l0 [|l1 r]].
    + eapply winner_of_stack; reflexivity.
    + destruct Hti as (_ & [H|H] & _); discriminate H.
    + destruct Hti.
Qed.

Lemma fetched_has_winner (n : nat) (s : state) :
  Z.of_nat n < UINT32_MOD ->
  reachable n s ->
  (0 < count_fetched (threads s))%nat ->
  init_done s = 1 \/
  exists i t, nth_error (threads s) i = Some t /\ is_winner t.
Proof.
  intros Hn Hr. induction Hr as [|s s' Hr IH (i & a & He)]; intros Hpos.
  - exfalso. change (threads (initial n)) with (repeat idle n) in Hpos.
    assert (Hz : count_fetched (repeat idle n) = 0%nat).
    { unfold count_fetched. clear. induction n; cbn; auto. }
    lia.
  - pose proof (reachable_inv n s Hn Hr) as HI.
    destruct (Nat.eq_dec (count_fetched (threads s)) 0) as [Hz|Hz].
    + right. exists i. exact (exec_first_fetch n s s' i a HI He Hz Hpos).
    + destruct IH as [Hd|(j & tj & Hj & Hw)]; [lia | |].
      * left. exact (exec_done_monotone s s' i a He Hd).
      * destruct (Nat.eq_dec j i) as [->|Hji].
        -- destruct (exec_winner_stays n s s' i a tj HI He Hj Hw)
             as [Hd|(t' & Ht' & Hw')]; [now left|].
           right. now exists i, t'.
        -- right. exists j, tj. split; [|exact Hw].
           now rewrite (exec_other_thread s s' i j a He Hji).
Qed.

(** X12. No reachable state of a living process is a dead end: whatever the
    threads have done so far, there is a continuation (in which [dlsym]
    and [tas_init] succeed) that ends with [init_done] set.  While
    initialisation is under way it is the thread on the winner's path
    that can finish it, alone and without waiting for any other. *)
Theorem initialisation_can_complete (n : nat) (s : state) :
  Z.of_nat n < UINT32_MOD ->
  (0 < n)%nat ->
  reachable n s ->
  aborted s = false ->
  completes s.
Proof.
  intros Hn Hpos Hr Ha.
  pose proof (reachable_inv n s Hn Hr) as HI.
  destruct (inv_done n s HI) as [Hd|Hd]; [|now exists [], s].
  destruct (Nat.eq_dec (count_fetched (threads s)) 0) as [Hz|Hz].
  - (* nobody has passed line 400: thread 0 can become the winner *)
    pose proof (inv_cnt n s HI) as Hc. rewrite Hz in Hc. cbn in Hc.
    destruct (nth_error (threads s) 0) as [t|] eqn:Ht.
    2:{ apply nth_error_None in Ht. rewrite (inv_length n s HI) in Ht. lia. }
    assert (Hf : fetched t = false).
    { destruct (fetched t) eqn:Hf; [|reflexivity].
      pose proof (count_fetched_pos _ 0%nat t Ht Hf). lia. }
    pose proof (inv_threads n s HI 0%nat t Ht) as Hti.
    unfold thread_inv in Hti.
    destruct (stack t) as [|l [|l0 [|l1 r]]] eqn:Hst.
    + apply (drive_idle s 0 t); tauto.
    + destruct l; cbn in Hti;
        try (rewrite Hf in Hti; exfalso; decompose [and] Hti; discriminate).
      * apply (drive_L393 s 0 t); tauto.
      * apply (drive_L396 s 0 t); tauto.
      * apply (drive_L400 s 0 t); tauto.
    + destruct Hti as (Hout & _ & Hl0). exfalso.
      destruct l0; try discriminate Hout; cbn in Hl0;
        rewrite Hf in Hl0; decompose [and] Hl0; discriminate.
    + destruct Hti.
  - destruct (fetched_has_winner n s Hn Hr ltac:(lia))
      as [Hd1|(i & t & Ht & lw & Hlw & Hww)]; [lia|].
    pose proof (inv_threads n s HI i t Ht) as Hti.
    unfold thread_inv in Hti. unfold outermost in Hlw.
    destruct (stack t) as [|l [|l0 [|l1 r]]] eqn:Hst; cbn in Hlw;
      try discriminate; try contradiction; injection Hlw as ->.
    + exact (drive_winner s i t lw Ha Ht Hst Hww).
    + destruct Hti as (Hout & Hl & Hl0).
      apply (drive_nested s i t l lw Ha Ht Hst Hl); [|exact Hww].
      destruct lw; try discriminate Hout; cbn in Hl0;
        destruct Hl0 as (Hx & _); lia.
Qed.

End GateMore.

(** * The pointer table and [init_done] *)

Module Publication.
Import Interpose Shapes InterposeFacts.

Lemma after_two_threads_reachable :
  Gate.reachable 2 Demo.after_two_threads.
Proof.
  apply (GateFacts.run_reachable 2 Demo.two_threads (Gate.initial 2)).
  - constructor.
  - vm_compute. reflexivity.
Qed.

Section Order.

Context {E : Backends}.

(** C8. The thread that initialises assigns the 22 pointers in the order
    of [init], calls [tas_init], passes the barrier and only then sets
    [init_done]; every pointer it leaves is the non-null answer of
    [dlsym].  In every reachable state of a process of fewer than [2^32]
    threads with [init_done = 1] every pointer is non-null, and no step of
    any thread changes the table; nor does an entry point called with
    [init_done] set. *)
Theorem table_complete_before_ready (w : World) (e : Z) (b : B)
    (n : nat) (s : Gate.state) :
  fresh w ->
  first_unresolved all_symbols (backend w) = None ->
  tas_init_impl (backend w) (errno w) = (0, e, b) ->
  Z.of_nat n < UINT32_MOD ->
  Gate.reachable n s ->
  Gate.init_done s = 1 ->
  (exists w',
     ensure_init w = Ret tt w' /\
     log w' = log w ++ EvEnsureInit :: bind_events all_symbols (backend w)
                    ++ [EvTasInit; EvBarrier; EvPublish] /\
     init_done w' = 1 /\
     forall sym, table w' sym = dlsym_next (symbol_name sym) (backend w) /\
                 table w' sym <> 0) /\
  GateInv.full (Gate.table s) /\
  (forall s', Gate.step s s' ->
              forall sym, Gate.table s' sym = Gate.table s sym) /\
  (forall c w0, init_done w0 <> 0 ->
                table (final_world (intercept c w0)) = table w0).
Proof.
  intros Hf Hu Ht Hn Hr Hd.
  pose proof (GateFacts.reachable_inv n s Hn Hr) as HI.
  split; [|split; [|split]].
  - eexists. split; [exact (ensure_init_success w e b Hf Hu Ht)|].
    cbn [log init_done table]. repeat split.
    + apply bound_table_in, all_symbols_complete.
    + rewrite bound_table_in by apply all_symbols_complete.
      exact (first_unresolved_none _ _ Hu sym (all_symbols_complete sym)).
  - exact (proj2 (GateInv.inv_ready n s HI Hd)).
  - intros s' Hs. exact (GateFacts.step_keeps_table n s s' HI Hd Hs).
  - intros c w0 H0. exact (proj1 (ready_table_fixed c w0 H0)).
Qed.

End Order.

Lemma table_complete_before_ready_witness :
  GateInv.full (Gate.table Demo.after_two_threads) /\
  init_done
    (final_world (ensure_init (start (E := Demo.tas_owns_all) tt 0))) = 1.
Proof.
  pose proof (table_complete_before_ready
                (start (E := Demo.tas_owns_all) tt 0) 0 tt
                2 Demo.after_two_threads
                (conj eq_refl (conj eq_refl eq_refl)) eq_refl eq_refl
                eq_refl after_two_threads_reachable eq_refl) as H.
  destruct H as ((w' & -> & _ & Hd & _) & Hfull & _).
  split; [exact Hfull | exact Hd].
Defined.

Lemma init_runs_once_witness :
  Gate.inits Demo.after_two_threads = 1%nat.
Proof.
  exact (proj1 (proj2 (GateFacts.init_runs_once 2 Demo.after_two_threads
                         eq_refl after_two_threads_reachable)) eq_refl).
Defined.

End Publication.

(** * The further theorems at concrete inputs *)

Module MoreWitnesses.
Import Interpose Shapes Program InterposeFacts InterposeMore.

Lemma latecomer_reaches_no_backend_witness :
  intercept (CClose 3) (Demo.latecomer Demo.tas_owns_all tt) =
  Spin (mkWorld (E := Demo.tas_owns_all) 0 2 0 0 (fun _ => 0) tt
          [EvEnsureInit]).
Proof.
  exact (latecomer_reaches_no_backend (CClose 3)
           (Demo.latecomer Demo.tas_owns_all tt)
           eq_refl eq_refl ltac:(discriminate) eq_refl).
Defined.

Lemma ready_stays_ready_witness :
  table (final_world
           (run_calls [CClose 3; CSocket 2 1 0; CEpollCreate 1]
              (Demo.ready Demo.tas_owns_nothing tt))) =
  table (Demo.ready Demo.tas_owns_nothing tt).
Proof.
  exact (proj1 (proj2 (ready_stays_ready
                         [CClose 3; CSocket 2 1 0; CEpollCreate 1]
                         (Demo.ready Demo.tas_owns_nothing tt)
                         ltac:(discriminate)))).
Defined.

Lemma initialises_at_most_once_witness :
  (count is_tas_init
     (log (final_world
             (run_calls [CEpollCreate 1; CClose 3; CRead 3 0 8]
                (start (E := Demo.tas_owns_nothing) tt 0)))) <= 1)%nat.
Proof.
  exact (proj1 (initialises_at_most_once
                  [CEpollCreate 1; CClose 3; CRead 3 0 8]
                  (start (E := Demo.tas_owns_nothing) tt 0)
                  (conj eq_refl (conj eq_refl eq_refl)))).
Defined.

Lemma first_call_native_by_name_witness :
  4096 <> 0 /\
  exists w',
    intercept (CAccept4 3 0 0 0) (start (E := Demo.tas_owns_nothing) tt 0)
      = Ret 0 w' /\
    log w' =
      log (start (E := Demo.tas_owns_nothing) tt 0) ++
      EvEnsureInit :: bind_events (E := Demo.tas_owns_nothing) all_symbols tt ++
      [EvTasInit; EvBarrier; EvPublish; EvTas (CAccept4 3 0 0 0);
       EvLibc 4096 (CAccept4 3 0 0 0)] /\
    errno w' = EBADF /\ backend w' = tt /\ init_done w' = 1.
Proof.
  exact (first_call_native_by_name (CAccept4 3 0 0 0)
           (start (E := Demo.tas_owns_nothing) tt 0) 0 tt tt
           (conj eq_refl (conj eq_refl eq_refl))
           eq_refl eq_refl eq_refl I eq_refl).
Defined.

Lemma select_pointer_never_used_witness :
  exists r w',
    intercept (CSelect 4 0 0 0 0)
      (Demo.ready_without_select Demo.tas_owns_nothing tt) = Ret r w'.
Proof.
  apply (select_pointer_never_used (CSelect 4 0 0 0 0)
           (Demo.ready_without_select Demo.tas_owns_nothing tt)).
  - discriminate.
  - intros s Hs. destruct s; cbn; try discriminate. now elim Hs.
Defined.

Lemma early_reentrant_call_crashes_witness :
  intercept (CClose 3) (Demo.before_assignments Demo.tas_owns_nothing tt) =
  Crash (answered (Demo.before_assignments Demo.tas_owns_nothing tt)
           [EvEnsureInit; EvTas (CClose 3)] EBADF tt).
Proof.
  exact (early_reentrant_call_crashes (CClose 3)
           (Demo.before_assignments Demo.tas_owns_nothing tt) tt
           eq_refl ltac:(discriminate) eq_refl I eq_refl eq_refl).
Defined.

Lemma fcntl_argument_intact_iff_int_witness :
  fcntl 3 6 [140737488355072] (Demo.ready Demo.tas_owns_nothing tt) <>
  try_tas_then_libc (CFcntl 3 6 140737488355072)
    (emit EvEnsureInit (Demo.ready Demo.tas_owns_nothing tt)).
Proof.
  intros H.
  apply (proj1 (fcntl_argument_intact_iff_int 3 6 140737488355072 []
                  (Demo.ready Demo.tas_owns_nothing tt)
                  (emit EvEnsureInit (Demo.ready Demo.tas_owns_nothing tt))
                  eq_refl)) in H.
  unfold int_range in H. lia.
Defined.

Lemma during_init_reachable : Gate.reachable 2 Demo.during_init.
Proof.
  apply (GateFacts.run_reachable 2 (firstn 12 Demo.two_threads)
           (Gate.initial 2)).
  - constructor.
  - vm_compute. reflexivity.
Qed.

Lemma after_first_symbol_missing_reachable :
  Gate.reachable 1 Demo.after_first_symbol_missing.
Proof.
  apply (GateFacts.run_reachable 1 Demo.first_symbol_missing
           (Gate.initial 1)).
  - constructor.
  - vm_compute. reflexivity.
Qed.

Lemma in_init_never_waits_witness :
  (List.length [Gate.InInit 0] <= 2)%nat.
Proof.
  exact (proj1 (GateMore.in_init_never_waits 2 Demo.during_init 0
                  (Gate.mkThread [Gate.InInit 0] 1 true)
                  eq_refl during_init_reachable eq_refl
                  ltac:(discriminate))).
Defined.

Lemma in_init_in_one_thread_witness : 0%nat = 0%nat.
Proof.
  exact (GateMore.in_init_in_one_thread 2 Demo.during_init 0 0
           (Gate.mkThread [Gate.InInit 0] 1 true)
           (Gate.mkThread [Gate.InInit 0] 1 true)
           eq_refl during_init_reachable eq_refl eq_refl
           ltac:(discriminate) ltac:(discriminate)).
Defined.

Lemma counter_never_wraps_witness :
  0 <= Gate.init_cnt Demo.during_init <= 2.
Proof.
  exact (proj1 (proj2 (GateMore.counter_never_wraps 2 Demo.during_init
                         eq_refl during_init_reachable))).
Defined.

Lemma abort_only_before_ready_witness :
  Gate.init_done Demo.after_first_symbol_missing = 0.
Proof.
  exact (GateMore.abort_only_before_ready 1
           Demo.after_first_symbol_missing eq_refl
           after_first_symbol_missing_reachable eq_refl).
Defined.

Lemma initialisation_can_complete_witness :
  GateInv.completes Demo.during_init.
Proof.
  exact (GateMore.initialisation_can_complete 2 Demo.during_init
           eq_refl ltac:(lia) during_init_reachable eq_refl).
Defined.

End MoreWitnesses.
